(** * pdf_to_text: OCR extraction, regex clean-up and whitelist-aware
      spell correction of scanned PDF documents.

    A shallow embedding of [pdf_to_text.py].  Python [str] values are lists
    of Unicode code points; the third-party engines (Poppler rasterizer,
    Tesseract, spaCy, pyspellchecker, difflib's similarity) are the fields
    of the class [Env]; printing, engine calls and the file system are
    threaded through a small state-and-exception monad. *)

From Stdlib Require Import NArith List Lia QArith Ascii String DecimalString.
From stdpp Require Import base list strings gmap sets.

Local Open Scope N_scope.
Local Open Scope list_scope.

(** ** Strings *)

(** A Python [str]: a sequence of code points. *)
Abbreviation str := (list N).

(** A literal of the source, as code points. *)
Definition lit (s : string) : str :=
  map N_of_ascii (String.list_ascii_of_string s).

Arguments lit : simpl never.

Definition nl : N := 10.
Definition space : N := 32.
Definition period : N := 46.
Definition asterisk : N := 42.
Definition middle_dot : N := 183.

(** [str(n)] for a non-negative integer. *)
Definition str_of_nat (n : nat) : str :=
  lit (DecimalString.NilEmpty.string_of_uint (Nat.to_uint n)).

(** ** Character classes of [re] on [str] patterns *)

Definition in_range (lo hi c : N) : bool := (lo <=? c) && (c <=? hi).

Definition in_ranges (rs : list (N * N)) (c : N) : bool :=
  existsb (fun r => in_range (fst r) (snd r) c) rs.

(** [\s]: the code points for which [str.isspace] holds. *)
Definition whitespace_ranges : list (N * N) :=
  [(9, 13); (28, 32); (133, 133); (160, 160); (5760, 5760); (8192, 8202);
   (8232, 8233); (8239, 8239); (8287, 8287); (12288, 12288)].

Definition is_space : N -> bool := in_ranges whitespace_ranges.

(** [\d]: the decimal digits of every script (category Nd). *)
Definition decimal_ranges : list (N * N) :=
  [(48, 57); (1632, 1641); (1776, 1785); (1984, 1993); (2406, 2415);
   (2534, 2543); (2662, 2671); (2790, 2799); (2918, 2927); (3046, 3055);
   (3174, 3183); (3302, 3311); (3430, 3439); (3558, 3567); (3664, 3673);
   (3792, 3801); (3872, 3881); (4160, 4169); (4240, 4249); (6112, 6121);
   (6160, 6169); (6470, 6479); (6608, 6617); (6784, 6793); (6800, 6809);
   (6992, 7001); (7088, 7097); (7232, 7241); (7248, 7257); (42528, 42537);
   (43216, 43225); (43264, 43273); (43472, 43481); (43504, 43513);
   (43600, 43609); (44016, 44025); (65296, 65305); (66720, 66729);
   (68912, 68921); (69734, 69743); (69872, 69881); (69942, 69951);
   (70096, 70105); (70384, 70393); (70736, 70745); (70864, 70873);
   (71248, 71257); (71360, 71369); (71472, 71481); (71904, 71913);
   (72016, 72025); (72784, 72793); (73040, 73049); (73120, 73129);
   (92768, 92777); (92864, 92873); (93008, 93017); (120782, 120831);
   (123200, 123209); (123632, 123641); (125264, 125273); (130032, 130041)].

Definition is_decimal : N -> bool := in_ranges decimal_ranges.

(** [[a-z]], [[A-Z]], [[0-9]]: plain code point ranges. *)
Definition is_lower : N -> bool := in_range 97 122.
Definition is_upper : N -> bool := in_range 65 90.
Definition is_ascii_digit : N -> bool := in_range 48 57.

Definition is_period (c : N) : bool := c =? period.
Definition is_asterisk (c : N) : bool := c =? asterisk.
Definition is_middle_dot (c : N) : bool := c =? middle_dot.
Definition is_nl (c : N) : bool := c =? nl.

(** ** [re.sub] and [str.replace] *)

(** Left-to-right scan shared by [re.sub] (for a pattern that cannot match
    the empty string) and [str.replace]: at each position not covered by the
    previous match, [m] gives the length of the match starting there, if
    any; the match is replaced by [repl] and the scan resumes after it.
    [skip] counts the characters of the current match still to pass. *)
Fixpoint scan_sub (m : str -> option nat) (repl : str) (skip : nat) (s : str)
  : str :=
  match s with
  | [] => []
  | c :: s' =>
      match skip with
      | S n => scan_sub m repl n s'
      | O =>
          match m s with
          | Some (S n) => repl ++ scan_sub m repl n s'
          | _ => c :: scan_sub m repl 0 s'
          end
      end
  end.

(** Length of the longest prefix of [s] made of [p] characters. *)
Fixpoint run_len (p : N -> bool) (s : str) : nat :=
  match s with
  | c :: s' => if p c then S (run_len p s') else O
  | [] => O
  end.

(** The greedy pattern [X{k,}] for a character class [X] and [k >= 1]
    ([X+] is [k = 1]). *)
Definition match_run (p : N -> bool) (k : nat) (s : str) : option nat :=
  let n := run_len p s in if (k <=? n)%nat then Some n else None.

Definition re_sub_run (p : N -> bool) (k : nat) (repl s : str) : str :=
  scan_sub (match_run p k) repl 0 s.

(** The pattern [\s*\n]: the greedy [\s*] gives characters back until a
    newline follows, so the match is the longest whitespace prefix that
    ends in a newline. *)
Fixpoint match_ws_nl (s : str) : option nat :=
  match s with
  | c :: s' =>
      if is_space c then
        match match_ws_nl s' with
        | Some n => Some (S n)
        | None => if is_nl c then Some 1%nat else None
        end
      else None
  | [] => None
  end.

(** [re.sub] for the zero-width pattern [(?<=B)(?=A)]: [ins] is inserted
    at every position preceded by a [before] character and followed by an
    [after] character. *)
Fixpoint re_sub_between (before after : N -> bool) (ins s : str) : str :=
  match s with
  | [] => []
  | c :: s' =>
      c :: (if before c && match s' with d :: _ => after d | [] => false end
            then ins ++ re_sub_between before after ins s'
            else re_sub_between before after ins s')
  end.

(** Is [old] a prefix of [s]? *)
Fixpoint starts_with (old s : str) : bool :=
  match old, s with
  | [], _ => true
  | a :: old', c :: s' => (a =? c) && starts_with old' s'
  | _ :: _, [] => false
  end.

(** [s.replace(old, new)] for a non-empty [old]. *)
Definition str_replace (old new s : str) : str :=
  scan_sub (fun t => if starts_with old t then Some (length old) else None)
           new 0 s.

(** [s.endswith(suffix)] *)
Definition ends_with (suffix s : str) : bool :=
  starts_with (rev suffix) (rev s).

(** No character of [s] is in the class [p]. *)
Definition lacks (p : N -> bool) (s : str) : bool :=
  forallb (fun c => negb (p c)) s.

(** No two adjacent characters of [s] are both in the class [p]. *)
Fixpoint no_adj (p : N -> bool) (s : str) : bool :=
  match s with
  | c :: (d :: _) as s' => negb (p c && p d) && no_adj p s'
  | _ => true
  end.

(** The first character of [s], if any, is in the class [p]. *)
Definition head_in (p : N -> bool) (s : str) : bool :=
  match s with c :: _ => p c | [] => false end.

(** [str.split()]: the maximal runs of non-whitespace characters. *)
Fixpoint split_from (cur : str) (s : str) : list str :=
  match s with
  | [] => match cur with [] => [] | _ => [cur] end
  | c :: s' =>
      if is_space c
      then match cur with [] => split_from [] s' | _ => cur :: split_from [] s' end
      else split_from (cur ++ [c]) s'
  end.

Definition str_split (s : str) : list str := split_from [] s.

(** [sep.join(parts)] *)
Fixpoint str_join (sep : str) (parts : list str) : str :=
  match parts with
  | [] => []
  | [x] => x
  | x :: rest => x ++ sep ++ str_join sep rest
  end.

(** ** The regular-expression clean-up of [clean_and_spellcheck_text] *)

Module Normalizer.

Definition collapse_periods (text : str) : str :=
  re_sub_run is_period 2 [period] text.
Definition remove_asterisks (text : str) : str :=
  re_sub_run is_asterisk 1 [] text.
Definition remove_middle_dots (text : str) : str :=
  re_sub_run is_middle_dot 1 [] text.
Definition collapse_newlines (text : str) : str :=
  re_sub_run is_nl 2 [nl] text.
Definition collapse_whitespace (text : str) : str :=
  re_sub_run is_space 2 [space] text.
Definition split_lower_upper (text : str) : str :=
  re_sub_between is_lower is_upper [period; space] text.
Definition split_digit_upper (text : str) : str :=
  re_sub_between is_ascii_digit is_upper [period; space] text.
Definition period_before_newline (text : str) : str :=
  scan_sub match_ws_nl [period; nl] 0 text.

(** Lines 66-72: the five collapse rules. *)
Definition collapse_rules (text : str) : str :=
  let text := collapse_periods text in
  let text := remove_asterisks text in
  let text := remove_middle_dots text in
  let text := collapse_newlines text in
  let text := collapse_whitespace text in
  text.

(** Lines 75-77: the punctuation fixes. *)
Definition punctuation_fixes (text : str) : str :=
  let text := split_lower_upper text in
  let text := split_digit_upper text in
  let text := period_before_newline text in
  text.

(** Lines 66-77. *)
Definition regex_cleanup (text : str) : str :=
  punctuation_fixes (collapse_rules text).

End Normalizer.

(** The eight rewrites as the specification words them, for comparison
    with [Normalizer.regex_cleanup]. *)
Module NormalizerSpec.

(** Every maximal run of two or more [p] characters becomes the single
    character [r]; shorter runs are kept.  [run] is the run being read. *)
Fixpoint collapse_from (p : N -> bool) (r : N) (run : str) (s : str) : str :=
  let flush := match run with _ :: _ :: _ => [r] | _ => run end in
  match s with
  | [] => flush
  | c :: s' =>
      if p c then collapse_from p r (run ++ [c]) s'
      else flush ++ c :: collapse_from p r [] s'
  end.

Definition collapse (p : N -> bool) (r : N) (s : str) : str :=
  collapse_from p r [] s.

Definition remove (p : N -> bool) (s : str) : str :=
  List.filter (fun c => negb (p c)) s.

(** [ins] goes between every [before] character and the [after] character
    that immediately follows it. *)
Fixpoint insert_between (before after : N -> bool) (ins s : str) : str :=
  match s with
  | c :: (d :: _) as s' =>
      if before c && after d then c :: ins ++ insert_between before after ins s'
      else c :: insert_between before after ins s'
  | _ => s
  end.

Definition period_before_each_newline (s : str) : str :=
  flat_map (fun c => if is_nl c then [period; nl] else [c]) s.

Definition step1 := collapse is_period period.
Definition step2 := remove is_asterisk.
Definition step3 := remove is_middle_dot.
Definition step4 := collapse is_nl nl.
Definition step5 := collapse is_space space.
Definition step6 := insert_between is_lower is_upper [period; space].
Definition step7 := insert_between is_ascii_digit is_upper [period; space].
Definition step8 := period_before_each_newline.

Definition normalize (text : str) : str :=
  step8 (step7 (step6 (step5 (step4 (step3 (step2 (step1 text))))))).

End NormalizerSpec.

(** ** [os.path] and the file system

    The path functions follow [posixpath]; [os.path.abspath] depends on the
    working directory and is left to the environment. *)

Definition slash : N := 47.
Definition is_slash (c : N) : bool := c =? slash.
Definition not_slash (c : N) : bool := negb (is_slash c).

(** [os.path.basename]: what follows the last slash. *)
Definition basename (p : str) : str :=
  rev (firstn (run_len not_slash (rev p)) (rev p)).

(** [s.rstrip('/')] *)
Definition rstrip_slashes (s : str) : str :=
  rev (skipn (run_len is_slash (rev s)) (rev s)).

(** [os.path.dirname] *)
Definition dirname (p : str) : str :=
  let head := firstn (length p - length (basename p)) p in
  if forallb is_slash head then head else rstrip_slashes head.

(** [os.path.join(a, b)] *)
Definition path_join (a b : str) : str :=
  if head_in is_slash b then b
  else match a with
       | [] => a ++ b
       | _ => if ends_with [slash] a then a ++ b else a ++ slash :: b
       end.

(** The name under which the entry [p] is listed in the directory [d],
    when [p] lies immediately inside [d]. *)
Definition child_name (d p : str) : option str :=
  if starts_with d p then
    let rest := skipn (length d) p in
    let name := if ends_with [slash] d then rest
                else match rest with
                     | c :: r => if is_slash c then r else []
                     | [] => []
                     end in
    match name with
    | [] => None
    | _ => if forallb not_slash name then Some name else None
    end
  else None.

(** [p] and the directories above it, as [os.makedirs] creates them. *)
Fixpoint dir_prefixes (seen : str) (p : str) : list str :=
  match p with
  | [] => match seen with [] => [] | _ => [seen] end
  | c :: p' =>
      (if is_slash c then match seen with [] => [] | _ => [seen] end else [])
      ++ dir_prefixes (seen ++ [c]) p'
  end.

(** ** Results, events and the world *)

(** The outcome of a call: a value, or an exception with its message. *)
Inductive result (A : Type) : Type :=
| Ok (a : A)
| Raise (msg : str).
Arguments Ok {A} a.
Arguments Raise {A} msg.

(** What the program does to its surroundings, in order: lines printed on
    the console and calls into the engines. *)
Inductive event (image : Type) : Type :=
| Printed (line : str)
| Rasterize (pdf_path : str)
| Ocr (page : image)
| Segment (text : str)
| SpellUnknown (word : str)
| SpellCorrection (word : str).
Arguments Printed {image} line.
Arguments Rasterize {image} pdf_path.
Arguments Ocr {image} page.
Arguments Segment {image} text.
Arguments SpellUnknown {image} word.
Arguments SpellCorrection {image} word.

(** Regular files with their contents, directories, and the events so
    far. *)
Record world (image : Type) : Type := World {
  files : gmap str str;
  dirs : gset str;
  trace : list (event image)
}.
Arguments World {image} files dirs trace.
Arguments files {image} w.
Arguments dirs {image} w.
Arguments trace {image} w.

(** The engines and the module-level state of the script.  Each engine is
    a function of its argument that returns or raises. *)
Class Env : Type := {
  image : Type;
  (** [pdf2image.convert_from_path] with the configured Poppler and cache *)
  convert_from_path : str -> result (list image);
  (** [pytesseract.image_to_string] *)
  image_to_string : image -> result str;
  (** [[sent.text for sent in nlp(text).sents]] *)
  nlp_sents : str -> result (list str);
  (** [bool(spell.unknown([word]))] *)
  spell_unknown : str -> result bool;
  (** [spell.correction(word)] *)
  spell_correction : str -> result (option str);
  (** [SequenceMatcher] with [x] as first and [word] as second sequence:
      [ratio()], [quick_ratio()], [real_quick_ratio()] *)
  ratio : str -> str -> Q;
  quick_ratio : str -> str -> Q;
  real_quick_ratio : str -> str -> Q;
  (** the set read from the whitelist file *)
  dnd_whitelist : gset str;
  abspath : str -> str
}.

(** ** The monad: state and exceptions *)

Section Program.

Context {E : Env}.

Definition M (A : Type) : Type := world image -> result A * world image.

Definition ret {A} (a : A) : M A := fun w => (Ok a, w).

Definition bind {A B} (c : M A) (k : A -> M B) : M B :=
  fun w => match c w with
           | (Ok a, w') => k a w'
           | (Raise e, w') => (Raise e, w')
           end.

(** [try: body except Exception as e: handler(e)] *)
Definition try_except {A} (body : M A) (handler : str -> M A) : M A :=
  fun w => match body w with
           | (Ok a, w') => (Ok a, w')
           | (Raise e, w') => handler e w'
           end.

Notation "'let*' x ':=' c 'in' k" := (bind c (fun x => k))
  (at level 10, x name, c at level 100, k at level 200).
Notation "'do' c 'then' k" := (bind c (fun _ => k))
  (at level 10, c at level 100, k at level 200).

Definition emit (ev : event image) (w : world image) : world image :=
  World (files w) (dirs w) (trace w ++ [ev]).

(** The world after the events [evs]. *)
Definition emits (evs : list (event image)) (w : world image) : world image :=
  World (files w) (dirs w) (trace w ++ evs).

Definition print (line : str) : M unit := fun w => (Ok tt, emit (Printed line) w).

(** A call into an engine: recorded, then its outcome. *)
Definition call {A} (ev : event image) (r : result A) : M A :=
  fun w => (r, emit ev w).

(** [os.path.exists] *)
Definition exists_in (w : world image) (p : str) : bool :=
  match files w !! p with
  | Some _ => true
  | None => bool_decide (p ∈ dirs w)
  end.

Definition path_exists (p : str) : M bool := fun w => (Ok (exists_in w p), w).

(** [os.makedirs]: fails when the path or one above it is a regular
    file. *)
Definition makedirs (p : str) : M unit :=
  fun w =>
    let ps := dir_prefixes [] p in
    if existsb (fun q => bool_decide (is_Some (files w !! q))) ps
    then (Raise (lit "FileExistsError"), w)
    else (Ok tt, World (files w) (dirs w ∪ list_to_set ps) (trace w)).

(** [os.listdir]: the names of the entries immediately inside [d]. *)
Definition listdir (d : str) : M (list str) :=
  fun w =>
    if bool_decide (d ∈ dirs w)
    then (Ok (omap (child_name d)
                   (elements (dom (files w) ∪ dirs w))), w)
    else (Raise (lit "FileNotFoundError"), w).

(** [with open(p, 'w', encoding='utf-8') as f: f.write(content)]: needs
    the directory of [p], and [p] not to be a directory. *)
Definition write_file (p content : str) : M unit :=
  fun w =>
    if bool_decide (dirname p ∈ dirs w) && negb (bool_decide (p ∈ dirs w))
    then (Ok tt, World (<[p := content]> (files w)) (dirs w) (trace w))
    else (Raise (lit "OSError"), w).

(** ** [difflib.get_close_matches] *)

(** The order of Python on [str]: code point by code point. *)
Fixpoint str_ltb (a b : str) : bool :=
  match a, b with
  | _, [] => false
  | [], _ :: _ => true
  | x :: a', y :: b' => (x <? y) || ((x =? y) && str_ltb a' b')
  end.

(** The order of Python on the pairs [(score, x)]. *)
Definition score_ltb (a b : Q * str) : bool :=
  match (fst a ?= fst b)%Q with
  | Lt => true
  | Gt => false
  | Eq => str_ltb (snd a) (snd b)
  end.

Fixpoint insert_desc (x : Q * str) (l : list (Q * str)) : list (Q * str) :=
  match l with
  | [] => [x]
  | h :: t => if score_ltb x h then h :: insert_desc x t else x :: l
  end.

(** [heapq.nlargest(n, result)]: the [n] greatest, greatest first. *)
Definition nlargest (n : nat) (l : list (Q * str)) : list (Q * str) :=
  firstn n (fold_right insert_desc [] l).

(** The candidates that pass the three tests of [get_close_matches], with
    their scores. *)
Definition close_candidates (word : str) (possibilities : list str)
    (cutoff : Q) : list (Q * str) :=
  flat_map (fun x =>
    if Qle_bool cutoff (real_quick_ratio x word)
       && Qle_bool cutoff (quick_ratio x word)
       && Qle_bool cutoff (ratio x word)
    then [(ratio x word, x)] else []) possibilities.

(** [get_close_matches(word, possibilities, n, cutoff)] for [n > 0] and
    [0 <= cutoff <= 1]. *)
Definition get_close_matches (word : str) (possibilities : list str)
    (n : nat) (cutoff : Q) : list str :=
  map snd (nlargest n (close_candidates word possibilities cutoff)).

(** ** The script *)

Definition cutoff : Q := 8 # 10.

Definition is_word_in_whitelist (word : str) : bool :=
  let close_matches :=
    get_close_matches word (elements dnd_whitelist) 1 cutoff in
  match close_matches with [] => false | _ => true end.

(** The section that a page adds to the text. *)
Definition page_section (page_num : nat) (ocr_text : str) : str :=
  lit "--- Page " ++ str_of_nat page_num ++ lit " ---" ++ [nl]
  ++ ocr_text ++ [nl].

(** The loop of [ocr_pdf_to_text] over [enumerate(images, start)]. *)
Fixpoint ocr_pages (pdf_path : str) (page_num : nat) (images : list image)
    (full_text : str) : M str :=
  match images with
  | [] => ret full_text
  | image :: images' =>
      let* full_text :=
        try_except
          (do print (lit "Processing page " ++ str_of_nat page_num
                     ++ lit " of " ++ pdf_path) then
           let* ocr_text := call (Ocr image) (image_to_string image) in
           ret (full_text ++ page_section page_num ocr_text))
          (fun img_error =>
           do print (lit "Error processing page " ++ str_of_nat page_num
                     ++ lit " in " ++ pdf_path ++ lit ": " ++ img_error) then
           ret full_text) in
      ocr_pages pdf_path (S page_num) images' full_text
  end.

Definition ocr_pdf_to_text (pdf_path : str) : M (option str) :=
  try_except
    (do print (lit "Converting PDF to images for: " ++ pdf_path) then
     let* images := call (Rasterize pdf_path) (convert_from_path pdf_path) in
     let* full_text := ocr_pages pdf_path 1 images [] in
     ret (Some full_text))
    (fun e =>
     do print (lit "Error processing " ++ pdf_path ++ lit ": " ++ e) then
     ret None).

(** The body of the loop over the words of a sentence (lines 89-103);
    the result is the word appended to [corrected_sentence]. *)
Definition correct_word (word : str) : M str :=
  if bool_decide (word ∈ dnd_whitelist) || is_word_in_whitelist word then
    ret word
  else if (15 <? length word)%nat || existsb is_decimal word then
    ret word
  else
    try_except
      (let* misspelled := call (SpellUnknown word) (spell_unknown word) in
       if misspelled then
         let* correction :=
           call (SpellCorrection word) (spell_correction word) in
         ret (match correction with
              | Some (c :: cs) => c :: cs
              | _ => word
              end)
       else ret word)
      (fun e =>
       do print (lit "Error correcting word '" ++ word ++ lit "': " ++ e) then
       ret word).

Fixpoint for_each {A B} (f : A -> M B) (l : list A) : M (list B) :=
  match l with
  | [] => ret []
  | x :: l' =>
      let* y := f x in
      let* ys := for_each f l' in
      ret (y :: ys)
  end.

Definition correct_sentence (sentence : str) : M str :=
  let words := str_split sentence in
  let* corrected_sentence := for_each correct_word words in
  ret (str_join [space] corrected_sentence).

Definition clean_and_spellcheck_text (text : str) : M str :=
  let text := Normalizer.regex_cleanup text in
  let* sentences := call (Segment text) (nlp_sents text) in
  let* corrected_text := for_each correct_sentence sentences in
  ret (str_join [nl; nl] corrected_text).

(** The path of the text file that belongs to a PDF (lines 112-119). *)
Definition txt_file_path (pdf_path txt_output_folder : str) : str :=
  let pdf_path := abspath pdf_path in
  let txt_output_folder := abspath txt_output_folder in
  let base_name := str_replace (lit ".pdf") [] (basename pdf_path) in
  path_join txt_output_folder (base_name ++ lit ".txt").

(** Lines 132-141: what is done with the outcome of the extraction. *)
Definition save_or_fail (pdf_path txt_file_path : str)
    (extracted_text : option str) : M unit :=
  match extracted_text with
  | Some (c :: cs) =>
      let* cleaned_text := clean_and_spellcheck_text (c :: cs) in
      do write_file txt_file_path cleaned_text then
      print (lit "Text extracted, cleaned, and spell-checked for "
             ++ pdf_path ++ lit " and saved to " ++ txt_file_path)
  | _ => print (lit "Failed to process " ++ pdf_path)
  end.

Definition process_pdf_file (pdf_path txt_output_folder : str) : M unit :=
  let txt_file_path := txt_file_path pdf_path txt_output_folder in
  let pdf_path := abspath pdf_path in
  let* found := path_exists txt_file_path in
  if found then
    print (lit "Skipping " ++ pdf_path ++ lit ", text file already exists: "
           ++ txt_file_path)
  else
    do print (lit "Processing file: " ++ pdf_path) then
    let* extracted_text := ocr_pdf_to_text pdf_path in
    save_or_fail pdf_path txt_file_path extracted_text.

(** The loop of [process_pdf_folder] over [pdf_files]. *)
Fixpoint process_pdf_files (pdf_folder txt_output_folder : str)
    (pdf_files : list str) : M unit :=
  match pdf_files with
  | [] => ret tt
  | file_name :: pdf_files' =>
      let pdf_path := path_join pdf_folder file_name in
      do process_pdf_file pdf_path txt_output_folder then
      process_pdf_files pdf_folder txt_output_folder pdf_files'
  end.

Definition process_pdf_folder (pdf_folder txt_output_folder : str) : M unit :=
  let pdf_folder := abspath pdf_folder in
  let txt_output_folder := abspath txt_output_folder in
  let* found := path_exists txt_output_folder in
  do (if found then ret tt else makedirs txt_output_folder) then
  do print (lit "Scanning folder for PDF files: " ++ pdf_folder) then
  let* names := listdir pdf_folder in
  let pdf_files := List.filter (ends_with (lit ".pdf")) names in
  match pdf_files with
  | [] => print (lit "No PDF files found.")
  | _ => process_pdf_files pdf_folder txt_output_folder pdf_files
  end.

(** ** Two readings of the extracted text *)

(** A section for every page, with an empty body where OCR raised. *)
Fixpoint sections_of_all_pages (page_num : nat) (images : list image) : str :=
  match images with
  | [] => []
  | image :: images' =>
      page_section page_num
        (match image_to_string image with Ok t => t | Raise _ => [] end)
      ++ sections_of_all_pages (S page_num) images'
  end.

(** A section for every page that OCR returned a text for, numbered by its
    position among all pages; nothing for the others. *)
Fixpoint sections_of_read_pages (page_num : nat) (images : list image) : str :=
  match images with
  | [] => []
  | image :: images' =>
      (match image_to_string image with
       | Ok t => page_section page_num t
       | Raise _ => []
       end)
      ++ sections_of_read_pages (S page_num) images'
  end.

End Program.
(** ** A test environment

    Engines with canned answers, for evaluating the script on concrete
    inputs: pages are numbered, [/in/scan.pdf] has three pages of which the
    second cannot be read, [/in/empty.pdf] has no page, [/in/book1.pdf] is
    the two-page book of the end-to-end scenario, and nothing else is a
    PDF. *)
Module Demo.

Definition pages_of (pdf_path : str) : result (list nat) :=
  if bool_decide (pdf_path = lit "/in/scan.pdf") then Ok [1; 2; 3]%nat
  else if bool_decide (pdf_path = lit "/in/empty.pdf") then Ok []
  else if bool_decide (pdf_path = lit "/in/book1.pdf") then Ok [4; 5]%nat
  else Raise (lit "Unable to get page count.").

Definition ocr_of (page : nat) : result str :=
  match page with
  | 1%nat => Ok (lit "A")
  | 3%nat => Ok (lit "C")
  | 4%nat => Ok (lit "Helo Wrold")
  | 5%nat => Ok (lit "goblin attcks")
  | _ => Raise (lit "TesseractError")
  end.

(** Every text is one sentence. *)
Definition one_sentence (text : str) : result (list str) := Ok [text].

Definition dictionary : list (str * str) :=
  [(lit "Helo", lit "Hello"); (lit "Wrold", lit "World");
   (lit "attcks", lit "attacks")].

Definition lookup_correction (word : str) : option str :=
  snd <$> List.find (fun e => bool_decide (fst e = word)) dictionary.

Definition unknown (word : str) : result bool :=
  Ok (match lookup_correction word with Some _ => true | None => false end).

Definition correction (word : str) : result (option str) :=
  Ok (lookup_correction word).

(** A similarity that only knows equality. *)
Definition same (x word : str) : Q :=
  if bool_decide (x = word) then 1%Q else 0%Q.

Definition env : Env := {|
  image := nat;
  convert_from_path := pages_of;
  image_to_string := ocr_of;
  nlp_sents := one_sentence;
  spell_unknown := unknown;
  spell_correction := correction;
  ratio := same;
  quick_ratio := same;
  real_quick_ratio := same;
  dnd_whitelist := {[ lit "goblin" ]};
  abspath := fun p => p
|}.

(** An input folder with four entries and no output folder yet. *)
Definition start : world nat :=
  World (list_to_map [(lit "/in/scan.pdf", lit "%PDF");
                      (lit "/in/empty.pdf", lit "%PDF");
                      (lit "/in/book1.pdf", lit "%PDF");
                      (lit "/in/notes.txt", lit "hello")])
        (list_to_set [lit "/"; lit "/in"])
        [].

End Demo.

(** ** Predicates on texts and candidate lists *)

(** A text on which none of the five rules has anything to do. *)
Definition collapsed (s : str) : bool :=
  no_adj is_period s && lacks is_asterisk s && lacks is_middle_dot s
  && no_adj is_space s.

(** The text that reaches step 8. *)
Definition before_step8 (text : str) : str :=
  Normalizer.split_digit_upper
    (Normalizer.split_lower_upper (Normalizer.collapse_rules text)).

(** The first element of the list has the greatest score. *)
Definition head_greatest (l : list (Q * str)) : Prop :=
  match l with
  | [] => True
  | h :: _ => forall y, In y l -> (fst y <= fst h)%Q
  end.

(** ** Predicates on computations and worlds *)

(** A computation whose outcome does not depend on the world and that
    leaves files and directories alone: it only prints and calls engines. *)
Definition io_only {E : Env} {A} (c : M A) : Prop :=
  exists r, forall w,
    fst (c w) = r /\ files (snd (c w)) = files w /\ dirs (snd (c w)) = dirs w.

Definition blank {E : Env} : world image := World ∅ ∅ [].

(** What the extractor returns for a path. *)
Definition extraction {E : Env} (pdf_path : str) : result (option str) :=
  fst (ocr_pdf_to_text pdf_path blank).

(** [not extracted_text] *)
Definition falsy (extracted_text : result (option str)) : Prop :=
  extracted_text = Ok None \/ extracted_text = Ok (Some []).

(** Nothing is left to write for a document: its text file exists, or its
    extraction gives nothing. *)
Definition settled {E : Env} (w : world image) (pdf_path out : str) : Prop :=
  exists_in w (txt_file_path pdf_path out) = true \/
  falsy (extraction (abspath pdf_path)).

(** From [w] to [w']: the same directories, nothing removed, and only
    [.txt] files added. *)
Definition grows {E : Env} (w w' : world image) : Prop :=
  dirs w' = dirs w /\
  (forall p, is_Some (files w !! p) -> is_Some (files w' !! p)) /\
  (forall p, is_Some (files w' !! p) ->
             is_Some (files w !! p) \/ ends_with (lit ".txt") p = true).

(** The names that [process_pdf_folder] finds in a directory. *)
Definition pdf_names {E : Env} (d : str) (w : world image) : list str :=
  List.filter (ends_with (lit ".pdf"))
    (omap (child_name d) (elements (dom (files w) ∪ dirs w))).

(** Lines 150-151: the output folder is created when it is missing. *)
Definition ensure_folder {E : Env} (txt_output_folder : str) : M unit :=
  bind (path_exists txt_output_folder)
       (fun found => if found then ret tt else makedirs txt_output_folder).

(** Lines 155-163: the PDF files of the folder are processed one by one. *)
Definition process_listed {E : Env} (pdf_folder txt_output_folder : str)
    : M unit :=
  fun w =>
    match pdf_names pdf_folder w with
    | [] => print (lit "No PDF files found.") w
    | pdf_files => process_pdf_files pdf_folder txt_output_folder pdf_files w
    end.

(** ** The whitelist file (lines 29-30) *)

(** Iteration over a text file: the lines, each with its newline; the
    last one may lack it.  [cur] is the line being read. *)
Fixpoint file_lines_from (cur : str) (content : str) : list str :=
  match content with
  | [] => match cur with [] => [] | _ => [cur] end
  | c :: content' =>
      if is_nl c then (cur ++ [c]) :: file_lines_from [] content'
      else file_lines_from (cur ++ [c]) content'
  end.

Definition file_lines (content : str) : list str := file_lines_from [] content.

(** [s.lstrip()] and [s.strip()] *)
Definition lstrip (s : str) : str := skipn (run_len is_space s) s.
Definition strip (s : str) : str := rev (lstrip (rev (lstrip s))).

(** [set(line.strip() for line in f)] for a file with the text [content]. *)
Definition load_whitelist (content : str) : gset str :=
  list_to_set (map strip (file_lines content)).

(** ** Further predicates on texts, words and traces *)

(** Every newline of [s] comes right after a period; [after_period] tells
    whether the character before [s] is one. *)
Fixpoint newlines_follow (after_period : bool) (s : str) : bool :=
  match s with
  | [] => true
  | c :: s' =>
      (if is_nl c then after_period else true) && newlines_follow (is_period c) s'
  end.

(** No [before] character of [s] is immediately followed by an [after]
    character. *)
Fixpoint no_pair (before after : N -> bool) (s : str) : bool :=
  match s with
  | c :: (d :: _) as s' => negb (before c && after d) && no_pair before after s'
  | _ => true
  end.

(** The pages handed to OCR, in the order of the calls. *)
Definition ocr_calls {image : Type} (evs : list (event image)) : list image :=
  omap (fun ev => match ev with Ocr page => Some page | _ => None end) evs.

(** The tests of lines 89 and 91: the word is appended without asking the
    spell checker. *)
Definition protected {E : Env} (word : str) : bool :=
  (bool_decide (word ∈ dnd_whitelist) || is_word_in_whitelist word)
  || ((15 <? length word)%nat || existsb is_decimal word).


(** ** A test environment with failing engines

    As [Demo.env], but the spell checker and the sentence segmenter raise
    on every call. *)
Module Faulty.

Definition env : Env := {|
  image := nat;
  convert_from_path := Demo.pages_of;
  image_to_string := Demo.ocr_of;
  nlp_sents := fun _ => Raise (lit "E088");
  spell_unknown := fun _ => Raise (lit "KeyError");
  spell_correction := Demo.correction;
  ratio := Demo.same;
  quick_ratio := Demo.same;
  real_quick_ratio := Demo.same;
  dnd_whitelist := {[ lit "goblin" ]};
  abspath := fun p => p
|}.

(** [Demo.start] with the output folder in place. *)
Definition start : world nat :=
  World (files Demo.start) (list_to_set [lit "/"; lit "/in"; lit "/out"]) [].

(** An input folder without any PDF. *)
Definition text_only : world nat :=
  World {[ lit "/in/notes.txt" := lit "hello" ]}
        (list_to_set [lit "/in"; lit "/out"]) [].

End Faulty.

(** * Properties of the scanner *)

Section Scanner.

Variable p : N -> bool.

Lemma no_adj_cons c s :
  no_adj p (c :: s) = negb (p c && head_in p s) && no_adj p s.
Proof. destruct s; simpl; [now rewrite andb_false_r|reflexivity]. Qed.

Lemma run_len_head_false s : head_in p s = false -> run_len p s = O.
Proof. destruct s as [|c s]; simpl; [reflexivity|]. now intros ->. Qed.

Lemma run_len_no_adj s : no_adj p s = true -> (run_len p s <= 1)%nat.
Proof.
  destruct s as [|c s]; [simpl; lia|].
  rewrite no_adj_cons. simpl. destruct (p c); simpl; [|lia].
  intros H. apply andb_prop in H as [H _].
  apply negb_true_iff in H. rewrite (run_len_head_false _ H). lia.
Qed.

Lemma no_adj_tail c s : no_adj p (c :: s) = true -> no_adj p s = true.
Proof. rewrite no_adj_cons. intros H. now apply andb_prop in H. Qed.

(** One step of the scan for [X{k,}] at a position outside any match. *)
Lemma scan_sub_run_step k repl c s :
  scan_sub (match_run p k) repl 0 (c :: s) =
  if p c && (k <=? S (run_len p s))%nat
  then repl ++ scan_sub (match_run p k) repl (run_len p s) s
  else c :: scan_sub (match_run p k) repl 0 s.
Proof.
  cbn [scan_sub]. unfold match_run at 1. cbn [run_len].
  destruct (p c); cbn [andb].
  - now destruct (k <=? S (run_len p s))%nat.
  - now destruct (k <=? 0)%nat.
Qed.

Lemma scan_sub_skip m repl n c s :
  scan_sub m repl (S n) (c :: s) = scan_sub m repl n s.
Proof. reflexivity. Qed.

(** A text without a run of two [p] characters is left alone by the
    substitution of [X{2,}]. *)
Lemma re_sub_run2_id repl s :
  no_adj p s = true -> re_sub_run p 2 repl s = s.
Proof.
  unfold re_sub_run. induction s as [|c s IH]; intros H; [reflexivity|].
  pose proof (run_len_no_adj _ H) as Hr. cbn [run_len] in Hr.
  rewrite scan_sub_run_step.
  destruct (p c); cbn [andb].
  - destruct (Nat.leb_spec 2 (S (run_len p s))); [lia|].
    f_equal. apply IH. eapply no_adj_tail, H.
  - f_equal. apply IH. eapply no_adj_tail, H.
Qed.

(** A text without [p] characters is left alone by the substitution of
    [X+]. *)
Lemma re_sub_run1_id repl s :
  lacks p s = true -> re_sub_run p 1 repl s = s.
Proof.
  unfold re_sub_run, lacks. induction s as [|c s IH]; intros H; [reflexivity|].
  simpl in H. apply andb_prop in H as [Hc Hs]. apply negb_true_iff in Hc.
  rewrite scan_sub_run_step, Hc. cbn [andb]. f_equal. now apply IH.
Qed.

(** Deleting the matches of [X+] is filtering the class out. *)
Lemma scan_sub_delete s n :
  (n = O \/ n = run_len p s) ->
  scan_sub (match_run p 1) [] n s = List.filter (fun c => negb (p c)) s.
Proof.
  revert n. induction s as [|c s IH]; intros n Hn; [reflexivity|].
  cbn [run_len] in Hn. cbn [List.filter].
  destruct n as [|n].
  - rewrite scan_sub_run_step. destruct (p c); cbn [andb negb app].
    + apply IH. now right.
    + f_equal. apply IH. now left.
  - rewrite scan_sub_skip. destruct (p c); cbn [negb]; [|lia].
    apply IH. right. lia.
Qed.

Lemma re_sub_run1_delete s :
  re_sub_run p 1 [] s = List.filter (fun c => negb (p c)) s.
Proof. apply scan_sub_delete. now left. Qed.

(** After the substitution of [X{2,}] by one [p] character no two [p]
    characters are adjacent. *)
Lemma scan_sub_run2_no_adj r s :
  p r = true ->
  (no_adj p (scan_sub (match_run p 2) [r] (run_len p s) s) = true /\
   head_in p (scan_sub (match_run p 2) [r] (run_len p s) s) = false) /\
  no_adj p (scan_sub (match_run p 2) [r] 0 s) = true.
Proof.
  intros Hr. induction s as [|c s [[IH1 IH2] IH3]]; [now repeat split|].
  cbn [run_len]. rewrite scan_sub_run_step.
  destruct (p c) eqn:Hc; cbn [andb].
  - rewrite scan_sub_skip. split; [now split|].
    destruct (Nat.leb_spec 2 (S (run_len p s))) as [Hle|Hlt].
    + cbn [app]. rewrite no_adj_cons, IH1, IH2, andb_false_r. reflexivity.
    + assert (E : run_len p s = O) by lia. rewrite E in IH1, IH2.
      rewrite no_adj_cons, IH1, IH2, andb_false_r. reflexivity.
  - rewrite !scan_sub_run_step, Hc. cbn [andb head_in].
    rewrite Hc, !no_adj_cons, Hc, IH3. now repeat split.
Qed.

Lemma re_sub_run2_no_adj r s :
  p r = true -> no_adj p (re_sub_run p 2 [r] s) = true.
Proof. intros Hr. apply (scan_sub_run2_no_adj r s Hr). Qed.

End Scanner.

(** Replacing matches by a character outside [q] creates no adjacent
    pair of [q] characters. *)
Lemma scan_sub_keeps_no_adj (q : N -> bool) m r s n :
  q r = false -> no_adj q s = true ->
  no_adj q (scan_sub m [r] n s) = true /\
  (n = O -> head_in q (scan_sub m [r] n s) = true -> head_in q s = true).
Proof.
  intros Hr. revert n. induction s as [|c s IH]; intros n H; [now split|].
  pose proof (no_adj_tail q _ _ H) as Ht.
  rewrite no_adj_cons in H. apply andb_prop in H as [Hn _].
  destruct n as [|n]; [|rewrite scan_sub_skip; split; [apply IH, Ht|discriminate]].
  destruct (IH O Ht) as [I1 I2]. cbn [scan_sub].
  assert (Hkeep : no_adj q (c :: scan_sub m [r] 0 s) = true).
  { rewrite no_adj_cons, I1, andb_true_r.
    destruct (q c); [|reflexivity]. cbn [andb] in *.
    destruct (head_in q (scan_sub m [r] 0 s)) eqn:E; [|reflexivity].
    rewrite I2 in Hn by auto. discriminate. }
  destruct (m (c :: s)) as [[|k]|]; cbn [app head_in]; try (split; auto).
  - rewrite no_adj_cons, Hr. cbn [andb negb]. apply IH, Ht.
  - intros _. rewrite Hr. discriminate.
Qed.

Lemma re_sub_run_keeps_no_adj (q p : N -> bool) k r s :
  q r = false -> no_adj q s = true -> no_adj q (re_sub_run p k [r] s) = true.
Proof. intros Hr H. now apply scan_sub_keeps_no_adj. Qed.

(** The substitution only writes characters of the text or of the
    replacement. *)
Lemma scan_sub_forallb (P : N -> bool) m repl s n :
  forallb P repl = true -> forallb P s = true ->
  forallb P (scan_sub m repl n s) = true.
Proof.
  intros Hr. revert n. induction s as [|c s IH]; intros n H; [reflexivity|].
  cbn [forallb] in H. apply andb_prop in H as [Hc Hs].
  destruct n as [|n]; [|now apply IH].
  cbn [scan_sub]. destruct (m (c :: s)) as [[|k]|].
  2: rewrite forallb_app, Hr; now apply IH.
  all: cbn [forallb]; rewrite Hc; now apply IH.
Qed.


Lemma re_sub_run_lacks (q p : N -> bool) k r s :
  q r = false -> lacks q s = true -> lacks q (re_sub_run p k [r] s) = true.
Proof.
  intros Hr H. apply scan_sub_forallb; [|exact H].
  cbn. now rewrite Hr.
Qed.

Lemma filter_lacks (q p : N -> bool) s :
  lacks q s = true -> lacks q (List.filter (fun c => negb (p c)) s) = true.
Proof.
  unfold lacks. induction s as [|c s IH]; [reflexivity|].
  cbn. intros H. apply andb_prop in H as [Hc Hs].
  destruct (p c); cbn; [auto|]. rewrite Hc. auto.
Qed.

Lemma filter_lacks_self (p : N -> bool) s :
  lacks p (List.filter (fun c => negb (p c)) s) = true.
Proof.
  unfold lacks. induction s as [|c s IH]; [reflexivity|].
  cbn. destruct (p c) eqn:E; cbn; [auto|]. now rewrite E.
Qed.

Lemma no_adj_weaken (p q : N -> bool) s :
  (forall c, p c = true -> q c = true) ->
  no_adj q s = true -> no_adj p s = true.
Proof.
  intros Hpq. induction s as [|c s IH]; [reflexivity|].
  rewrite !no_adj_cons. intros H. apply andb_prop in H as [H1 H2].
  rewrite (IH H2), andb_true_r.
  destruct (p c) eqn:Hc; [|reflexivity]. rewrite (Hpq _ Hc) in H1.
  destruct s as [|d s]; [reflexivity|]. cbn in *.
  destruct (p d) eqn:Hd; [|reflexivity]. now rewrite (Hpq _ Hd) in H1.
Qed.

Lemma nl_is_space c : is_nl c = true -> is_space c = true.
Proof. unfold is_nl. intros H. apply N.eqb_eq in H. now subst c. Qed.

(** * The collapse rules (steps 1-5) *)

Section CollapseRules.

Import Normalizer.

Lemma collapse_rules_fixpoint s :
  collapsed s = true -> collapse_rules s = s.
Proof.
  unfold collapsed, collapse_rules. intros H.
  apply andb_prop in H as [H Hs]. apply andb_prop in H as [H Hm].
  apply andb_prop in H as [Hp Ha].
  unfold collapse_periods. rewrite (re_sub_run2_id _ _ _ Hp).
  unfold remove_asterisks. rewrite (re_sub_run1_id _ _ _ Ha).
  unfold remove_middle_dots. rewrite (re_sub_run1_id _ _ _ Hm).
  unfold collapse_newlines.
  rewrite (re_sub_run2_id _ _ _ (no_adj_weaken _ _ _ nl_is_space Hs)).
  unfold collapse_whitespace. now rewrite (re_sub_run2_id _ _ _ Hs).
Qed.

(** What one pass guarantees on every text. *)
Lemma collapse_rules_post s :
  lacks is_asterisk (collapse_rules s) = true /\
  lacks is_middle_dot (collapse_rules s) = true /\
  no_adj is_space (collapse_rules s) = true.
Proof.
  unfold collapse_rules, collapse_whitespace, collapse_newlines,
    remove_middle_dots, remove_asterisks.
  rewrite !re_sub_run1_delete. repeat split.
  - do 2 (apply re_sub_run_lacks; [reflexivity|]).
    apply filter_lacks, filter_lacks_self.
  - do 2 (apply re_sub_run_lacks; [reflexivity|]). apply filter_lacks_self.
  - now apply re_sub_run2_no_adj.
Qed.

(** A pass over a text without asterisks and middle dots leaves nothing to
    do. *)
Lemma collapse_rules_collapsed s :
  lacks is_asterisk s = true -> lacks is_middle_dot s = true ->
  collapsed (collapse_rules s) = true.
Proof.
  intros Ha Hm. destruct (collapse_rules_post s) as (Pa & Pm & Ps).
  unfold collapsed. rewrite Pa, Pm, Ps, !andb_true_r.
  unfold collapse_rules, collapse_whitespace, collapse_newlines.
  do 2 (apply re_sub_run_keeps_no_adj; [reflexivity|]).
  assert (Ha1 : lacks is_asterisk (collapse_periods s) = true)
    by now apply re_sub_run_lacks.
  assert (Hm1 : lacks is_middle_dot (collapse_periods s) = true)
    by now apply re_sub_run_lacks.
  unfold remove_asterisks. rewrite (re_sub_run1_id _ _ _ Ha1).
  unfold remove_middle_dots. rewrite (re_sub_run1_id _ _ _ Hm1).
  now apply re_sub_run2_no_adj.
Qed.

(** X23: the second pass of the five collapse rules can still find
    something to do, the third never: three passes give what two give. *)
Lemma collapse_rules_thrice s :
  collapse_rules (collapse_rules (collapse_rules s)) =
  collapse_rules (collapse_rules s).
Proof.
  destruct (collapse_rules_post s) as (Pa & Pm & _).
  apply collapse_rules_fixpoint. now apply collapse_rules_collapsed.
Qed.




End CollapseRules.

(** * The clean-up against its specification (steps 1-8) *)

Section Refinement.

Import Normalizer.

(** The scan for [X{2,}] and the run-by-run collapse agree, whatever part
    of a run has been read. *)
Lemma collapse_from_scan (p : N -> bool) r s :
  (forall run, run <> [] ->
     NormalizerSpec.collapse_from p r run s =
     (if (2 <=? length run + run_len p s)%nat then [r] else run)
     ++ scan_sub (match_run p 2) [r] (run_len p s) s) /\
  NormalizerSpec.collapse_from p r [] s = scan_sub (match_run p 2) [r] 0 s.
Proof.
  induction s as [|c s [IH1 IH2]].
  - split; [|reflexivity]. intros run Hrun. cbn.
    rewrite app_nil_r, Nat.add_0_r. now destruct run as [|a [|b run]].
  - split.
    + intros run Hrun. cbn [NormalizerSpec.collapse_from run_len].
      destruct (p c) eqn:Hc.
      * rewrite IH1 by now destruct run. rewrite length_app, scan_sub_skip.
        cbn [length]. destruct run as [|a run]; [easy|]. cbn [length].
        destruct (Nat.leb_spec 2 (S (length run) + 1 + run_len p s));
          destruct (Nat.leb_spec 2 (S (length run) + S (run_len p s)));
          try lia. reflexivity.
      * rewrite IH2, Nat.add_0_r, scan_sub_run_step, Hc. cbn [andb].
        now destruct run as [|a [|b run]].
    + cbn [NormalizerSpec.collapse_from]. rewrite scan_sub_run_step.
      destruct (p c) eqn:Hc; cbn [andb app].
      * rewrite IH1 by easy. cbn [length].
        destruct (Nat.leb_spec 2 (1 + run_len p s));
          destruct (Nat.leb_spec 2 (S (run_len p s))); try lia.
        -- reflexivity.
        -- assert (E : run_len p s = O) by lia. now rewrite E.
      * now rewrite IH2.
Qed.

Lemma re_sub_run2_collapse (p : N -> bool) r s :
  re_sub_run p 2 [r] s = NormalizerSpec.collapse p r s.
Proof. symmetry. apply collapse_from_scan. Qed.

Lemma re_sub_between_insert before after ins s :
  re_sub_between before after ins s =
  NormalizerSpec.insert_between before after ins s.
Proof.
  induction s as [|c s IH]; [reflexivity|].
  cbn [re_sub_between NormalizerSpec.insert_between]. rewrite IH.
  destruct s as [|d s]; [now rewrite andb_false_r|].
  now destruct (before c && after d).
Qed.

(** Inserting [i1 i2] before [after] characters keeps whitespace
    separated, when [i1] and the [after] characters are not whitespace. *)
Lemma re_sub_between_no_adj (q before after : N -> bool) i1 i2 s :
  q i1 = false -> (forall d, after d = true -> q d = false) ->
  no_adj q s = true ->
  no_adj q (re_sub_between before after [i1; i2] s) = true /\
  head_in q (re_sub_between before after [i1; i2] s) = head_in q s.
Proof.
  intros Hi Ha. induction s as [|c s IH]; intros H; [now split|].
  split; [|reflexivity].
  pose proof (no_adj_tail q _ _ H) as Ht. destruct (IH Ht) as [I1 I2].
  rewrite no_adj_cons in H. apply andb_prop in H as [Hn _].
  cbn [re_sub_between].
  destruct (before c && _) eqn:E.
  - apply andb_prop in E as [_ E]. destruct s as [|d s]; [discriminate|].
    cbn [app]. rewrite !no_adj_cons, I1, I2. cbn [head_in].
    now rewrite Hi, (Ha _ E), !andb_false_r.
  - now rewrite no_adj_cons, I1, I2, Hn.
Qed.

(** Where no two whitespace characters are adjacent, the substitution of
    [\s*\n] puts a period before each newline and does nothing else. *)
Lemma period_before_newline_spec s :
  no_adj is_space s = true ->
  period_before_newline s = NormalizerSpec.period_before_each_newline s.
Proof.
  unfold period_before_newline.
  induction s as [|c s IH]; intros H; [reflexivity|].
  pose proof (no_adj_tail _ _ _ H) as Ht.
  rewrite no_adj_cons in H. apply andb_prop in H as [Hn _].
  cbn [scan_sub match_ws_nl NormalizerSpec.period_before_each_newline flat_map].
  fold (NormalizerSpec.period_before_each_newline s).
  rewrite <- (IH Ht).
  destruct (is_space c) eqn:Hc.
  - cbn [andb negb] in Hn. apply negb_true_iff in Hn.
    assert (E : match_ws_nl s = None).
    { destruct s as [|d s]; [reflexivity|]. cbn in Hn |- *. now rewrite Hn. }
    rewrite E. now destruct (is_nl c).
  - destruct (is_nl c) eqn:Hnl; [|reflexivity].
    apply nl_is_space in Hnl. congruence.
Qed.

(** A code point inside [lo..hi] belongs to no range disjoint from it. *)
Lemma in_ranges_outside rs lo hi d :
  lo <= d <= hi ->
  forallb (fun r => (snd r <? lo) || (hi <? fst r)) rs = true ->
  in_ranges rs d = false.
Proof.
  intros Hd. induction rs as [|[a b] rs IH]; [reflexivity|].
  cbn [forallb in_ranges existsb fst snd]. intros H.
  apply andb_prop in H as [H1 H2]. fold (in_ranges rs d). rewrite (IH H2).
  rewrite orb_false_r. unfold in_range.
  apply orb_prop in H1 as [H1|H1]; apply N.ltb_lt in H1.
  - apply andb_false_intro2. apply N.leb_gt. lia.
  - apply andb_false_intro1. apply N.leb_gt. lia.
Qed.

Lemma is_upper_not_space d : is_upper d = true -> is_space d = false.
Proof.
  unfold is_upper, in_range. intros H. apply andb_prop in H as [H1 H2].
  apply N.leb_le in H1, H2.
  apply (in_ranges_outside _ 65 90); [lia|]. vm_compute. reflexivity.
Qed.

Lemma before_step8_no_adj text : no_adj is_space (before_step8 text) = true.
Proof.
  unfold before_step8, split_digit_upper, split_lower_upper.
  destruct (collapse_rules_post text) as (_ & _ & Hs).
  do 2 (apply re_sub_between_no_adj;
        [reflexivity|apply is_upper_not_space|]).
  exact Hs.
Qed.

(** C3: the clean-up of the code is the composition of the eight rewrites
    of the specification, each applied once and in the listed order; its
    fifth rewrite turns every run of two or more whitespace characters into
    one space, and its eighth puts a period right before each newline that
    is left. *)
Theorem regex_cleanup_refines_spec :
  (forall text, regex_cleanup text = NormalizerSpec.normalize text) /\
  (forall text, collapse_whitespace text = NormalizerSpec.step5 text) /\
  (forall text, period_before_newline (before_step8 text) =
                NormalizerSpec.step8 (before_step8 text)).
Proof.
  assert (H8 : forall text, period_before_newline (before_step8 text) =
                 NormalizerSpec.step8 (before_step8 text)).
  { intros text. apply period_before_newline_spec, before_step8_no_adj. }
  split; [|split; [intros; apply re_sub_run2_collapse|exact H8]].
  intros text. unfold regex_cleanup, punctuation_fixes.
  change (period_before_newline (before_step8 text) =
          NormalizerSpec.normalize text).
  rewrite H8. unfold NormalizerSpec.normalize. f_equal.
  unfold before_step8, split_digit_upper, split_lower_upper, collapse_rules,
    collapse_whitespace, collapse_newlines, remove_middle_dots,
    remove_asterisks, collapse_periods.
  now rewrite !re_sub_between_insert, !re_sub_run2_collapse,
    !re_sub_run1_delete.
Qed.

End Refinement.


(** * The OCR extractor *)

Lemma ocr_pages_text {E : Env} pdf_path page_num images full_text w :
  fst (ocr_pages pdf_path page_num images full_text w) =
  Ok (full_text ++ sections_of_read_pages page_num images).
Proof.
  revert page_num full_text w.
  induction images as [|image images IH]; intros page_num full_text w.
  - cbn. now rewrite app_nil_r.
  - cbn [ocr_pages sections_of_read_pages].
    unfold bind at 1. unfold try_except, bind, print, call, ret.
    destruct (image_to_string image) as [t|e]; rewrite IH.
    + now rewrite app_assoc.
    + reflexivity.
Qed.

(** The loop touches neither files nor directories. *)
Lemma ocr_pages_frame {E : Env} pdf_path page_num images full_text w :
  files (snd (ocr_pages pdf_path page_num images full_text w)) = files w /\
  dirs (snd (ocr_pages pdf_path page_num images full_text w)) = dirs w.
Proof.
  revert page_num full_text w.
  induction images as [|image images IH]; intros page_num full_text w.
  - now split.
  - cbn [ocr_pages]. unfold bind at 1. unfold try_except, bind, print, call, ret.
    destruct (image_to_string image) as [t|e];
      match goal with |- context [ocr_pages _ _ _ ?t ?w'] =>
        destruct (IH (S page_num) t w') as [-> ->] end; now split.
Qed.

Lemma emit_emits {E : Env} ev evs w :
  emit ev (emits evs w) = emits (evs ++ [ev]) w.
Proof. unfold emit, emits. cbn. now rewrite app_assoc. Qed.

Lemma emit_emits_nil {E : Env} ev w : emit ev w = emits [ev] w.
Proof. reflexivity. Qed.

(** When rasterization succeeds the extractor returns the sections of the
    pages read, and touches neither files nor directories. *)
Lemma ocr_pdf_to_text_returns {E : Env} pdf_path images w :
  convert_from_path pdf_path = Ok images ->
  exists w', ocr_pdf_to_text pdf_path w =
               (Ok (Some (sections_of_read_pages 1 images)), w') /\
             files w' = files w /\ dirs w' = dirs w.
Proof.
  intros H. unfold ocr_pdf_to_text, try_except.
  unfold bind at 1. unfold print. unfold bind at 1. unfold call. rewrite H.
  unfold bind, ret.
  set (w1 := emit (Rasterize pdf_path) _).
  pose proof (ocr_pages_text pdf_path 1 images [] w1) as Ht.
  destruct (ocr_pages_frame pdf_path 1 images [] w1) as [Hf Hd].
  destruct (ocr_pages _ _ _ _ _) as [r w']. cbn in Ht, Hf, Hd. subst r.
  exists w'. now repeat split.
Qed.

(** When rasterization raises the extractor prints the error and returns
    [None]. *)
Lemma ocr_pdf_to_text_raises {E : Env} pdf_path e w :
  convert_from_path pdf_path = Raise e ->
  ocr_pdf_to_text pdf_path w =
  (Ok None,
   emits [Printed (lit "Converting PDF to images for: " ++ pdf_path);
          Rasterize pdf_path;
          Printed (lit "Error processing " ++ pdf_path ++ lit ": " ++ e)] w).
Proof.
  intros H. unfold ocr_pdf_to_text, try_except.
  unfold bind at 1. unfold print. unfold bind at 1. unfold call. rewrite H.
  unfold bind, ret, emit, emits. cbn. now rewrite <- !app_assoc.
Qed.

(** C1, as stated, fails: the second of three pages cannot be read, and the
    text has no [--- Page 2 ---] marker at all, where the claim expects
    the marker with an empty body. *)
Lemma unread_page_leaves_no_marker :
  @convert_from_path Demo.env (lit "/in/scan.pdf") = Ok [1; 2; 3]%nat /\
  @image_to_string Demo.env 2%nat = Raise (lit "TesseractError") /\
  fst (@ocr_pdf_to_text Demo.env (lit "/in/scan.pdf") Demo.start) =
    Ok (Some (page_section 1 (lit "A") ++ page_section 3 (lit "C"))) /\
  @sections_of_all_pages Demo.env 1 [1; 2; 3]%nat =
    page_section 1 (lit "A") ++ page_section 2 [] ++ page_section 3 (lit "C") /\
  fst (@ocr_pdf_to_text Demo.env (lit "/in/scan.pdf") Demo.start) <>
    Ok (Some (@sections_of_all_pages Demo.env 1 [1; 2; 3]%nat)).
Proof. repeat split. vm_compute. discriminate. Qed.

(** C1, amended: when rasterization succeeds, the text returned is the
    concatenation, in page order, of the section
    [--- Page <n> ---\n<page_text>\n] of every page on which OCR succeeded,
    [n] being the 1-indexed position of the page among all pages; a page on
    which OCR fails contributes nothing, and the pages after it are still
    processed. *)
Theorem ocr_text_is_sections_of_read_pages {E : Env} pdf_path images w :
  convert_from_path pdf_path = Ok images ->
  fst (ocr_pdf_to_text pdf_path w) =
  Ok (Some (sections_of_read_pages 1 images)).
Proof.
  intros H. destruct (ocr_pdf_to_text_returns pdf_path images w H)
    as (w' & -> & _). reflexivity.
Qed.

Lemma ocr_text_is_sections_of_read_pages_witness :
  @convert_from_path Demo.env (lit "/in/scan.pdf") = Ok [1; 2; 3]%nat /\
  fst (@ocr_pdf_to_text Demo.env (lit "/in/scan.pdf") Demo.start) =
  Ok (Some (@sections_of_read_pages Demo.env 1 [1; 2; 3]%nat)).
Proof.
  split; [reflexivity|].
  apply (@ocr_text_is_sections_of_read_pages Demo.env). reflexivity.
Defined.

(** * The spell-correcting rewriter *)

(** C4: a word that is an element of the whitelist is appended to the
    corrected sentence as it is, whatever the spell checker would answer;
    the spell checker is not even asked. *)
Theorem whitelisted_word_kept {E : Env} word w :
  word ∈ dnd_whitelist -> correct_word word w = (Ok word, w).
Proof.
  intros H. unfold correct_word. now rewrite (bool_decide_eq_true_2 _ H).
Qed.

Lemma whitelisted_word_kept_witness :
  lit "goblin" ∈ @dnd_whitelist Demo.env /\
  @correct_word Demo.env (lit "goblin") Demo.start =
  (Ok (lit "goblin"), Demo.start).
Proof.
  assert (H : lit "goblin" ∈ @dnd_whitelist Demo.env)
    by (cbn; apply elem_of_singleton_2; reflexivity).
  split; [exact H|]. exact (@whitelisted_word_kept Demo.env _ _ H).
Defined.

(** C5: a word of more than 15 characters, or with a decimal digit in it,
    is appended to the corrected sentence as it is. *)
Theorem long_or_numeric_word_kept {E : Env} word w :
  (15 < length word)%nat \/ (exists c, In c word /\ is_decimal c = true) ->
  correct_word word w = (Ok word, w).
Proof.
  intros H. unfold correct_word.
  destruct (bool_decide _ || is_word_in_whitelist word); [reflexivity|].
  assert (G : (15 <? length word)%nat || existsb is_decimal word = true).
  { apply orb_true_iff. destruct H as [H|H].
    - left. now apply Nat.ltb_lt.
    - right. now apply existsb_exists. }
  now rewrite G.
Qed.

Lemma long_or_numeric_word_kept_witness :
  (exists c, In c (lit "lvl3") /\ is_decimal c = true) /\
  (15 < length (lit "antidisestablish"))%nat /\
  @correct_word Demo.env (lit "lvl3") Demo.start = (Ok (lit "lvl3"), Demo.start) /\
  @correct_word Demo.env (lit "antidisestablish") Demo.start =
    (Ok (lit "antidisestablish"), Demo.start).
Proof.
  assert (H1 : exists c, In c (lit "lvl3") /\ is_decimal c = true).
  { exists 51. split; [vm_compute; tauto|reflexivity]. }
  assert (H2 : (15 < length (lit "antidisestablish"))%nat) by (vm_compute; lia).
  split; [exact H1|]. split; [exact H2|]. split.
  - exact (@long_or_numeric_word_kept Demo.env _ _ (or_intror H1)).
  - exact (@long_or_numeric_word_kept Demo.env _ _ (or_introl H2)).
Defined.

(** * The file orchestrator *)

(** [os.path.exists] looks at files and directories only. *)
Lemma exists_in_emits {E : Env} evs w p :
  exists_in (emits evs w) p = exists_in w p.
Proof. reflexivity. Qed.

(** C6: when rasterization raises, the extractor prints the error and
    returns [None], which is not the empty string; [process_pdf_file] then
    writes nothing, prints that the document failed and returns normally,
    and the loop over the folder goes on with the next file. *)
Theorem rasterization_failure_is_skipped {E : Env}
    pdf_folder file_name pdf_files txt_output_folder e w :
  let pdf_path := path_join pdf_folder file_name in
  let failed :=
    emits [Printed (lit "Processing file: " ++ abspath pdf_path);
           Printed (lit "Converting PDF to images for: " ++ abspath pdf_path);
           Rasterize (abspath pdf_path);
           Printed (lit "Error processing " ++ abspath pdf_path ++ lit ": " ++ e);
           Printed (lit "Failed to process " ++ abspath pdf_path)] w in
  convert_from_path (abspath pdf_path) = Raise e ->
  exists_in w (txt_file_path pdf_path txt_output_folder) = false ->
  fst (ocr_pdf_to_text (abspath pdf_path) w) = Ok None /\
  Ok None <> Ok (Some ([] : str)) /\
  process_pdf_file pdf_path txt_output_folder w = (Ok tt, failed) /\
  files failed = files w /\
  process_pdf_files pdf_folder txt_output_folder (file_name :: pdf_files) w =
  process_pdf_files pdf_folder txt_output_folder pdf_files failed.
Proof.
  intros pdf_path failed Hr Hx.
  assert (Hp : process_pdf_file pdf_path txt_output_folder w = (Ok tt, failed)).
  { unfold process_pdf_file. unfold bind at 1. unfold path_exists.
    rewrite Hx. unfold bind at 1. unfold print. unfold bind.
    rewrite (ocr_pdf_to_text_raises _ e _ Hr).
    unfold save_or_fail, print, failed, emit, emits. cbn.
    now rewrite <- !app_assoc. }
  split; [now rewrite (ocr_pdf_to_text_raises _ e _ Hr)|].
  split; [discriminate|]. split; [exact Hp|]. split; [reflexivity|].
  cbn [process_pdf_files]. unfold bind at 1. fold pdf_path. now rewrite Hp.
Qed.

Lemma rasterization_failure_is_skipped_witness :
  let w := emits [] (snd (@makedirs Demo.env (lit "/out") Demo.start)) in
  @convert_from_path Demo.env (lit "/in/notes.pdf") =
    Raise (lit "Unable to get page count.") /\
  @exists_in Demo.env w (lit "/out/notes.txt") = false /\
  @process_pdf_file Demo.env (lit "/in/notes.pdf") (lit "/out") w =
  (Ok tt,
   emits [Printed (lit "Processing file: /in/notes.pdf");
          Printed (lit "Converting PDF to images for: /in/notes.pdf");
          Rasterize (lit "/in/notes.pdf");
          Printed (lit "Error processing /in/notes.pdf: Unable to get page count.");
          Printed (lit "Failed to process /in/notes.pdf")] w).
Proof.
  intros w. split; [reflexivity|]. split; [reflexivity|].
  apply (@rasterization_failure_is_skipped Demo.env (lit "/in")
           (lit "notes.pdf") [] (lit "/out") (lit "Unable to get page count.") w);
    reflexivity.
Defined.

Lemma sections_of_unread_pages {E : Env} page_num images :
  Forall (fun image => exists e, image_to_string image = Raise e) images ->
  sections_of_read_pages page_num images = [].
Proof.
  intros H. revert page_num.
  induction H as [|image images [e He] _ IH]; intros page_num; [reflexivity|].
  cbn. now rewrite He, IH.
Qed.

(** C10: when rasterization succeeds but no page yields a text (no page at
    all, or OCR raising on every page) the extractor returns the empty
    string, and [process_pdf_file] does with it what it does with [None]:
    it writes nothing and prints that the document failed. *)
Theorem empty_text_counts_as_failure {E : Env}
    pdf_path txt_output_folder images w :
  convert_from_path (abspath pdf_path) = Ok images ->
  Forall (fun image => exists e, image_to_string image = Raise e) images ->
  exists_in w (txt_file_path pdf_path txt_output_folder) = false ->
  fst (ocr_pdf_to_text (abspath pdf_path) w) = Ok (Some []) /\
  (let r := process_pdf_file pdf_path txt_output_folder w in
   fst r = Ok tt /\ files (snd r) = files w /\ dirs (snd r) = dirs w /\
   last (trace (snd r)) =
     Some (Printed (lit "Failed to process " ++ abspath pdf_path))) /\
  save_or_fail (abspath pdf_path)
    (txt_file_path pdf_path txt_output_folder) (Some []) =
  save_or_fail (abspath pdf_path)
    (txt_file_path pdf_path txt_output_folder) None.
Proof.
  intros Hc Hu Hx.
  split; [|split; [|reflexivity]].
  - destruct (ocr_pdf_to_text_returns _ _ w Hc) as (w' & -> & _).
    cbn. now rewrite (sections_of_unread_pages _ _ Hu).
  - destruct (ocr_pdf_to_text_returns _ _
                (emit (Printed (lit "Processing file: " ++ abspath pdf_path)) w)
                Hc) as (w' & Ho & Hf & Hd).
    rewrite (sections_of_unread_pages _ _ Hu) in Ho.
    assert (Hp : process_pdf_file pdf_path txt_output_folder w =
                 (Ok tt, emit (Printed (lit "Failed to process "
                                      ++ abspath pdf_path)) w')).
    { unfold process_pdf_file. unfold bind at 1. unfold path_exists.
      rewrite Hx. unfold bind at 1. unfold print. unfold bind.
      now rewrite Ho. }
    rewrite Hp. cbn [fst snd emit files dirs trace].
    rewrite Hf, Hd, last_snoc. now repeat split.
Qed.

Lemma empty_text_counts_as_failure_witness :
  let w := snd (@makedirs Demo.env (lit "/out") Demo.start) in
  let r := @process_pdf_file Demo.env (lit "/in/empty.pdf") (lit "/out") w in
  @convert_from_path Demo.env (lit "/in/empty.pdf") = Ok [] /\
  fst r = Ok tt /\ files (snd r) = files w /\ dirs (snd r) = dirs w /\
  last (trace (snd r)) = Some (Printed (lit "Failed to process /in/empty.pdf")).
Proof.
  intros w r. split; [reflexivity|].
  apply (@empty_text_counts_as_failure Demo.env (lit "/in/empty.pdf")
           (lit "/out") [] w); [reflexivity|constructor|reflexivity].
Defined.

(** Where the name has no period of its own, [replace] removes the
    extension and nothing else. *)
Lemma str_replace_extension name :
  lacks is_period name = true ->
  str_replace (lit ".pdf") [] (name ++ lit ".pdf") = name.
Proof.
  unfold str_replace, lacks.
  induction name as [|c name IH]; intros H; [reflexivity|].
  cbn [forallb] in H. apply andb_prop in H as [Hc Hn].
  cbn [app scan_sub].
  assert (Hs : starts_with (lit ".pdf") (c :: name ++ lit ".pdf") = false).
  { change (lit ".pdf") with [period; 112; 100; 102] at 1.
    cbn [starts_with]. unfold is_period in Hc.
    apply negb_true_iff in Hc. now rewrite N.eqb_sym, Hc. }
  rewrite Hs. f_equal. now apply IH.
Qed.

Lemma run_len_all p f rest :
  forallb p f = true -> head_in p rest = false ->
  run_len p (f ++ rest) = length f.
Proof.
  intros Hf Hr. induction f as [|c f IH]; cbn.
  - now apply run_len_head_false.
  - cbn in Hf. apply andb_prop in Hf as [-> Hf]. now rewrite IH.
Qed.

Lemma basename_of_joined d f :
  forallb not_slash f = true -> basename (d ++ slash :: f) = f.
Proof.
  intros Hf. unfold basename.
  rewrite rev_app_distr. cbn [rev]. rewrite <- !app_assoc. cbn [app].
  rewrite run_len_all, firstn_app, Nat.sub_diag, firstn_all; cbn.
  - now rewrite app_nil_r, rev_involutive.
  - rewrite forallb_forall in *. intros x Hx. apply Hf. now apply in_rev.
  - reflexivity.
Qed.

(** For such a name the text file is [<name>.txt] in the output folder. *)
Lemma txt_file_path_of_plain_name {E : Env} d name out :
  lacks is_period name = true -> forallb not_slash name = true ->
  abspath (d ++ slash :: name ++ lit ".pdf") = d ++ slash :: name ++ lit ".pdf" ->
  txt_file_path (d ++ slash :: name ++ lit ".pdf") out =
  path_join (abspath out) (name ++ lit ".txt").
Proof.
  intros Hp Hs Ha. unfold txt_file_path. rewrite Ha, basename_of_joined.
  - now rewrite str_replace_extension.
  - rewrite forallb_app, Hs. reflexivity.
Qed.

(** C8 fails on the code: [replace] removes every [.pdf] of the base name,
    not only the extension, so [a.pdf.pdf] is given the text file [a.txt]
    instead of [a.pdf.txt], the same one as [a.pdf]. *)
Lemma base_name_loses_inner_pdf :
  @txt_file_path Demo.env (lit "/in/a.pdf.pdf") (lit "/out") = lit "/out/a.txt" /\
  @txt_file_path Demo.env (lit "/in/a.pdf.pdf") (lit "/out") <>
    lit "/out/a.pdf.txt" /\
  @txt_file_path Demo.env (lit "/in/a.pdf.pdf") (lit "/out") =
    @txt_file_path Demo.env (lit "/in/a.pdf") (lit "/out").
Proof. repeat split. vm_compute. discriminate. Qed.

(** * The fuzzy whitelist matcher *)

Lemma insert_desc_In x l y : In y (insert_desc x l) <-> y = x \/ In y l.
Proof.
  induction l as [|h t IH]; cbn; [intuition|].
  destruct (score_ltb x h); cbn; [rewrite IH|]; intuition.
Qed.

Lemma sort_desc_In l y : In y (fold_right insert_desc [] l) <-> In y l.
Proof.
  induction l as [|x l IH]; cbn; [reflexivity|].
  rewrite insert_desc_In, IH. intuition.
Qed.

Lemma score_ltb_false a b : score_ltb a b = false -> (fst b <= fst a)%Q.
Proof.
  unfold score_ltb. destruct (fst a ?= fst b)%Q eqn:C; intros H.
  - apply Qeq_alt in C. rewrite C. apply Qle_refl.
  - discriminate.
  - apply Qgt_alt in C. now apply Qlt_le_weak.
Qed.

Lemma score_ltb_true a b : score_ltb a b = true -> (fst a <= fst b)%Q.
Proof.
  unfold score_ltb. destruct (fst a ?= fst b)%Q eqn:C; intros H.
  - apply Qeq_alt in C. rewrite C. apply Qle_refl.
  - apply Qlt_alt in C. now apply Qlt_le_weak.
  - discriminate.
Qed.

Lemma insert_desc_head_greatest x l :
  head_greatest l -> head_greatest (insert_desc x l).
Proof.
  destruct l as [|h t]; cbn.
  - intros _ y [->|[]]. apply Qle_refl.
  - intros H. destruct (score_ltb x h) eqn:C; cbn.
    + intros y [->|Hy]; [apply Qle_refl|].
      apply insert_desc_In in Hy as [->|Hy]; [now apply score_ltb_true|].
      apply H. now right.
    + apply score_ltb_false in C.
      intros y [->|Hy]; [apply Qle_refl|].
      eapply Qle_trans; [apply H, Hy|exact C].
Qed.

Lemma sort_desc_head_greatest l : head_greatest (fold_right insert_desc [] l).
Proof.
  induction l as [|x l IH]; cbn; [exact I|].
  now apply insert_desc_head_greatest.
Qed.

(** With [n = 1] the result is the candidate of greatest score, if there
    is a candidate. *)
Lemma nlargest_one l :
  match nlargest 1 l with
  | [] => l = []
  | best :: rest =>
      rest = [] /\ In best l /\ forall y, In y l -> (fst y <= fst best)%Q
  end.
Proof.
  unfold nlargest. pose proof (sort_desc_head_greatest l) as Hg.
  pose proof (sort_desc_In l) as Hi.
  destruct (fold_right insert_desc [] l) as [|h t]; cbn.
  - destruct l as [|x l]; [reflexivity|]. destruct (proj2 (Hi x)). now left.
  - split; [reflexivity|]. split; [apply Hi; now left|].
    intros y Hy. apply Hg, Hi, Hy.
Qed.

Section Matcher.

Context {E : Env}.

(** What [difflib] documents: the quick ratios are upper bounds of the
    ratio, and a sequence is entirely similar to itself. *)
Hypothesis quick_ratio_bound : forall x word, (ratio x word <= quick_ratio x word)%Q.
Hypothesis real_quick_ratio_bound :
  forall x word, (ratio x word <= real_quick_ratio x word)%Q.
Hypothesis ratio_self : forall x, (ratio x x == 1)%Q.

Lemma close_candidates_In word possibilities c y :
  In y (close_candidates word possibilities c) <->
  exists x, In x possibilities /\ y = (ratio x word, x) /\ (c <= ratio x word)%Q.
Proof.
  unfold close_candidates. rewrite in_flat_map. split.
  - intros (x & Hx & Hy). exists x. split; [exact Hx|].
    destruct (Qle_bool c (real_quick_ratio x word) && _ && _) eqn:T;
      [|destruct Hy].
    destruct Hy as [<-|[]]. split; [reflexivity|].
    apply andb_prop in T as [_ T]. now apply Qle_bool_iff.
  - intros (x & Hx & -> & Hc). exists x. split; [exact Hx|].
    assert (T : Qle_bool c (real_quick_ratio x word)
                && Qle_bool c (quick_ratio x word)
                && Qle_bool c (ratio x word) = true).
    { rewrite !andb_true_iff, !Qle_bool_iff. repeat split; try assumption.
      - eapply Qle_trans; [exact Hc|apply real_quick_ratio_bound].
      - eapply Qle_trans; [exact Hc|apply quick_ratio_bound]. }
    rewrite T. now left.
Qed.

(** The matcher answers by the best candidate of the whitelist. *)
Lemma is_word_in_whitelist_best word :
  if is_word_in_whitelist word
  then exists best, best ∈ dnd_whitelist /\
         get_close_matches word (elements dnd_whitelist) 1 cutoff = [best] /\
         (forall x, x ∈ dnd_whitelist -> (ratio x word <= ratio best word)%Q) /\
         (cutoff <= ratio best word)%Q
  else forall x, x ∈ dnd_whitelist -> (ratio x word < cutoff)%Q.
Proof.
  unfold is_word_in_whitelist, get_close_matches.
  pose proof (nlargest_one
                (close_candidates word (elements dnd_whitelist) cutoff)) as H.
  destruct (nlargest 1 _) as [|[q best] rest]; cbn [map].
  - intros x Hx. apply Qnot_le_lt. intros Hc.
    assert (Hin : In (ratio x word, x)
                    (close_candidates word (elements dnd_whitelist) cutoff)).
    { apply close_candidates_In. exists x.
      rewrite <- list_elem_of_In, elem_of_elements. now repeat split. }
    rewrite H in Hin. destruct Hin.
  - destruct H as (-> & Hb & Hmax).
    apply close_candidates_In in Hb as (b & Hb & Heq & Hc).
    injection Heq as -> ->.
    rewrite <- list_elem_of_In, elem_of_elements in Hb.
    exists b. repeat split; try assumption.
    intros x Hx. destruct (Qlt_le_dec (ratio x word) cutoff) as [Hlt|Hle].
    + apply Qlt_le_weak. eapply Qlt_le_trans; [exact Hlt|exact Hc].
    + apply (Hmax (ratio x word, x)). apply close_candidates_In. exists x.
      rewrite <- list_elem_of_In, elem_of_elements. now repeat split.
Qed.

(** C9: the matcher returns [True] exactly when the candidate of the
    whitelist most similar to the word has similarity at least 0.8, [False]
    exactly when every candidate is below 0.8, and [True] for every word
    that is an element of the whitelist. *)
Theorem fuzzy_match_by_best_candidate word :
  (is_word_in_whitelist word = true <->
   exists best, best ∈ dnd_whitelist /\
     (forall x, x ∈ dnd_whitelist -> (ratio x word <= ratio best word)%Q) /\
     (8 # 10 <= ratio best word)%Q) /\
  (is_word_in_whitelist word = false <->
   forall x, x ∈ dnd_whitelist -> (ratio x word < 8 # 10)%Q) /\
  (word ∈ dnd_whitelist -> is_word_in_whitelist word = true).
Proof.
  pose proof (is_word_in_whitelist_best word) as H.
  fold cutoff. destruct (is_word_in_whitelist word).
  - destruct H as (best & Hb & _ & Hmax & Hc). split; [|split].
    + split; [|reflexivity]. intros _. now exists best.
    + split; [discriminate|]. intros Hall.
      destruct (Qlt_not_le _ _ (Hall best Hb) Hc).
    + reflexivity.
  - split; [|split].
    + split; [discriminate|]. intros (best & Hb & _ & Hc).
      destruct (Qlt_not_le _ _ (H best Hb) Hc).
    + split; [intros _; exact H|reflexivity].
    + intros Hw. specialize (H word Hw). rewrite ratio_self in H.
      now vm_compute in H.
Qed.

End Matcher.

Lemma fuzzy_match_by_best_candidate_witness :
  (forall x word, (@ratio Demo.env x word <= @quick_ratio Demo.env x word)%Q) /\
  (forall x, (@ratio Demo.env x x == 1)%Q) /\
  @is_word_in_whitelist Demo.env (lit "goblin") = true /\
  (@is_word_in_whitelist Demo.env (lit "goblim") = false <->
   forall x, x ∈ @dnd_whitelist Demo.env ->
             (@ratio Demo.env x (lit "goblim") < 8 # 10)%Q).
Proof.
  assert (Hb : forall x word,
             (@ratio Demo.env x word <= @quick_ratio Demo.env x word)%Q)
    by (intros; apply Qle_refl).
  assert (Hs : forall x, (@ratio Demo.env x x == 1)%Q).
  { intros x. cbn. unfold Demo.same. now rewrite bool_decide_eq_true_2. }
  split; [exact Hb|]. split; [exact Hs|]. split.
  - apply (@fuzzy_match_by_best_candidate Demo.env Hb Hb Hs (lit "goblin")).
    cbn. apply elem_of_singleton_2. reflexivity.
  - apply (@fuzzy_match_by_best_candidate Demo.env Hb Hb Hs (lit "goblim")).
Defined.

(** * Computations that only print and call engines *)

Lemma io_only_ret {E : Env} {A} (a : A) : io_only (ret a).
Proof. exists (Ok a). now intros w. Qed.

Lemma io_only_print {E : Env} line : io_only (print line).
Proof. exists (Ok tt). now intros w. Qed.

Lemma io_only_call {E : Env} {A} ev (r : result A) : io_only (call ev r).
Proof. exists r. now intros w. Qed.

Lemma io_only_bind {E : Env} {A B} (c : M A) (k : A -> M B) :
  io_only c -> (forall a, io_only (k a)) -> io_only (bind c k).
Proof.
  intros [r Hr] Hk. destruct r as [a|e].
  - destruct (Hk a) as [r' Hr']. exists r'. intros w. unfold bind.
    destruct (Hr w) as (H1 & H2 & H3). destruct (c w) as [x w']. cbn in *.
    subst x. destruct (Hr' w') as (G1 & G2 & G3).
    now rewrite G1, G2, G3, H2, H3.
  - exists (Raise e). intros w. unfold bind.
    destruct (Hr w) as (H1 & H2 & H3). destruct (c w) as [x w']. cbn in *.
    now subst x.
Qed.

Lemma io_only_try {E : Env} {A} (body : M A) (handler : str -> M A) :
  io_only body -> (forall e, io_only (handler e)) ->
  io_only (try_except body handler).
Proof.
  intros [r Hr] Hh. destruct r as [a|e].
  - exists (Ok a). intros w. unfold try_except.
    destruct (Hr w) as (H1 & H2 & H3). destruct (body w) as [x w']. cbn in *.
    now subst x.
  - destruct (Hh e) as [r' Hr']. exists r'. intros w. unfold try_except.
    destruct (Hr w) as (H1 & H2 & H3). destruct (body w) as [x w']. cbn in *.
    subst x. destruct (Hr' w') as (G1 & G2 & G3).
    now rewrite G1, G2, G3, H2, H3.
Qed.

Lemma io_only_for_each {E : Env} {A B} (f : A -> M B) l :
  (forall x, io_only (f x)) -> io_only (for_each f l).
Proof.
  intros Hf. induction l as [|x l IH]; cbn [for_each].
  - apply io_only_ret.
  - apply io_only_bind; [apply Hf|]. intros y.
    apply io_only_bind; [exact IH|]. intros ys. apply io_only_ret.
Qed.

Lemma io_only_result {E : Env} {A} (c : M A) w :
  io_only c ->
  fst (c w) = fst (c blank) /\
  files (snd (c w)) = files w /\ dirs (snd (c w)) = dirs w.
Proof.
  intros [r Hr]. destruct (Hr w) as (-> & -> & ->).
  destruct (Hr blank) as (-> & _). now repeat split.
Qed.

Lemma io_only_ocr_pages {E : Env} pdf_path page_num images full_text :
  io_only (ocr_pages pdf_path page_num images full_text).
Proof.
  revert page_num full_text.
  induction images as [|image images IH]; intros page_num full_text;
    cbn [ocr_pages]; [apply io_only_ret|].
  apply io_only_bind; [|intros t; apply IH].
  apply io_only_try.
  - apply io_only_bind; [apply io_only_print|]. intros _.
    apply io_only_bind; [apply io_only_call|]. intros t. apply io_only_ret.
  - intros e. apply io_only_bind; [apply io_only_print|]. intros _.
    apply io_only_ret.
Qed.

Lemma io_only_ocr_pdf_to_text {E : Env} pdf_path :
  io_only (ocr_pdf_to_text pdf_path).
Proof.
  apply io_only_try.
  - apply io_only_bind; [apply io_only_print|]. intros _.
    apply io_only_bind; [apply io_only_call|]. intros images.
    apply io_only_bind; [apply io_only_ocr_pages|]. intros t.
    apply io_only_ret.
  - intros e. apply io_only_bind; [apply io_only_print|]. intros _.
    apply io_only_ret.
Qed.

Lemma io_only_correct_word {E : Env} word : io_only (correct_word word).
Proof.
  unfold correct_word.
  destruct (bool_decide _ || _); [apply io_only_ret|].
  destruct ((15 <? length word)%nat || _); [apply io_only_ret|].
  apply io_only_try.
  - apply io_only_bind; [apply io_only_call|]. intros [|].
    + apply io_only_bind; [apply io_only_call|]. intros c. apply io_only_ret.
    + apply io_only_ret.
  - intros e. apply io_only_bind; [apply io_only_print|]. intros _.
    apply io_only_ret.
Qed.

Lemma io_only_clean_and_spellcheck_text {E : Env} text :
  io_only (clean_and_spellcheck_text text).
Proof.
  apply io_only_bind; [apply io_only_call|]. intros sentences.
  apply io_only_bind; [|intros t; apply io_only_ret].
  apply io_only_for_each. intros sentence.
  apply io_only_bind; [|intros t; apply io_only_ret].
  apply io_only_for_each, io_only_correct_word.
Qed.

(** * Paths and suffixes *)

Lemma starts_with_split d p :
  starts_with d p = true -> p = d ++ skipn (length d) p.
Proof.
  revert p. induction d as [|a d IH]; intros [|c p] H; try easy.
  cbn in H. apply andb_prop in H as [H1 H2]. apply N.eqb_eq in H1. subst c.
  cbn. f_equal. now apply IH.
Qed.

Lemma starts_with_app x y : starts_with x (x ++ y) = true.
Proof. induction x as [|a x IH]; [reflexivity|]. cbn. now rewrite N.eqb_refl. Qed.

Lemma starts_with_same_length x y r :
  length x = length y -> starts_with y (x ++ r) = true -> y = x.
Proof.
  revert y. induction x as [|a x IH]; intros [|b y] Hl H; try easy.
  cbn in H. apply andb_prop in H as [H1 H2]. apply N.eqb_eq in H1. subst b.
  f_equal. apply IH; [now injection Hl|exact H2].
Qed.

Lemma ends_with_app suffix pre : ends_with suffix (pre ++ suffix) = true.
Proof. unfold ends_with. rewrite rev_app_distr. apply starts_with_app. Qed.

(** A name cannot end in [.pdf] when the path it closes ends in [.txt]. *)
Lemma pdf_name_not_in_txt_path pre f :
  ends_with (lit ".pdf") f = true ->
  ends_with (lit ".txt") (pre ++ f) = true -> False.
Proof.
  unfold ends_with. rewrite rev_app_distr. intros H1 H2.
  apply starts_with_split in H1. rewrite H1, <- app_assoc in H2.
  apply starts_with_same_length in H2; [discriminate|reflexivity].
Qed.

Lemma path_join_suffix a b : exists pre, path_join a b = pre ++ b.
Proof.
  unfold path_join. destruct (head_in is_slash b); [now exists []|].
  destruct a as [|c a]; [now exists []|].
  destruct (ends_with [slash] (c :: a)).
  - now exists (c :: a).
  - exists ((c :: a) ++ [slash]). now rewrite <- app_assoc.
Qed.

Lemma txt_file_path_ends_with_txt {E : Env} pdf_path out :
  ends_with (lit ".txt") (txt_file_path pdf_path out) = true.
Proof.
  unfold txt_file_path.
  destruct (path_join_suffix (abspath out)
              (str_replace (lit ".pdf") [] (basename (abspath pdf_path))
               ++ lit ".txt")) as [pre ->].
  rewrite app_assoc. apply ends_with_app.
Qed.

Lemma child_name_suffix d p f :
  child_name d p = Some f -> exists pre, p = pre ++ f.
Proof.
  unfold child_name. destruct (starts_with d p) eqn:Hs; [|discriminate].
  apply starts_with_split in Hs. revert Hs.
  generalize (skipn (length d) p) as rest. intros rest Hp.
  assert (G : forall name pre, p = pre ++ name ->
            match name with
            | [] => None
            | _ :: _ => if forallb not_slash name then Some name else None
            end = Some f -> exists pre, p = pre ++ f).
  { intros [|c name] pre Hn; [discriminate|].
    destruct (forallb _ _); [|discriminate]. intros [= <-]. now exists pre. }
  destruct (ends_with [slash] d); [now apply (G rest d)|].
  destruct rest as [|c r]; [discriminate|].
  destruct (is_slash c); [|discriminate].
  apply (G r (d ++ [c])). now rewrite <- app_assoc.
Qed.

Lemma dir_prefixes_self seen p :
  seen ++ p <> [] -> In (seen ++ p) (dir_prefixes seen p).
Proof.
  revert seen. induction p as [|c p IH]; intros seen H.
  - rewrite app_nil_r in *. destruct seen; [easy|]. now left.
  - cbn. apply in_or_app. right.
    replace (seen ++ c :: p) with ((seen ++ [c]) ++ p)
      by now rewrite <- app_assoc.
    apply IH. now destruct seen.
Qed.

(** * One document *)

Lemma exists_in_true {E : Env} w p :
  exists_in w p = true <-> is_Some (files w !! p) \/ p ∈ dirs w.
Proof.
  unfold exists_in. destruct (files w !! p) as [c|].
  - split; [|reflexivity]. intros _. left. now exists c.
  - rewrite bool_decide_eq_true. split; [now right|].
    intros [[c Hc]|H]; [discriminate|exact H].
Qed.

Lemma exists_in_ext {E : Env} w w' p :
  files w' = files w -> dirs w' = dirs w -> exists_in w' p = exists_in w p.
Proof. unfold exists_in. now intros -> ->. Qed.

Lemma grows_same {E : Env} w w' :
  files w' = files w -> dirs w' = dirs w -> grows w w'.
Proof. intros Hf Hd. unfold grows. rewrite Hf, Hd. now auto. Qed.

Lemma grows_trans {E : Env} w1 w2 w3 : grows w1 w2 -> grows w2 w3 -> grows w1 w3.
Proof.
  intros (D1 & K1 & N1) (D2 & K2 & N2). repeat split.
  - congruence.
  - auto.
  - intros p H. destruct (N2 p H) as [H'|H']; [auto|now right].
Qed.

Lemma exists_in_grows {E : Env} w w' p :
  grows w w' -> exists_in w p = true -> exists_in w' p = true.
Proof.
  intros (D & K & _). rewrite !exists_in_true, D. intros [H|H]; auto.
Qed.

Lemma settled_grows {E : Env} w w' pdf_path out :
  grows w w' -> settled w pdf_path out -> settled w' pdf_path out.
Proof.
  intros G [H|H]; [left|now right]. eapply exists_in_grows; eauto.
Qed.


(** Whatever happens to a document, files are only added, and when the
    call returns nothing is left to write for it. *)
Lemma process_pdf_file_step {E : Env} pdf_path out w :
  grows w (snd (process_pdf_file pdf_path out w)) /\
  (fst (process_pdf_file pdf_path out w) = Ok tt ->
   settled (snd (process_pdf_file pdf_path out w)) pdf_path out).
Proof.
  destruct (process_pdf_file pdf_path out w) as [r w'] eqn:Hr. cbn [fst snd].
  unfold process_pdf_file, bind, path_exists in Hr.
  destruct (exists_in w (txt_file_path pdf_path out)) eqn:Hx.
  { injection Hr as <- <-. split; [now apply grows_same|]. intros _.
    left. exact Hx. }
  unfold print at 1 in Hr.
  set (w2 := emit _ w) in Hr.
  destruct (io_only_result (ocr_pdf_to_text (abspath pdf_path)) w2
              (io_only_ocr_pdf_to_text _)) as (H1 & H2 & H3).
  fold (extraction (abspath pdf_path)) in H1.
  destruct (ocr_pdf_to_text (abspath pdf_path) w2) as [o w3]. cbn in H1, H2, H3.
  assert (G3 : grows w w3) by (apply grows_same; [rewrite H2|rewrite H3]; easy).
  destruct o as [[[|c cs]|]|e]; cbn [save_or_fail] in Hr.
  - injection Hr as <- <-. split.
    + apply grows_same; [rewrite <- H2|rewrite <- H3]; reflexivity.
    + intros _. right. right. now symmetry.
  - unfold bind in Hr.
    destruct (io_only_result (clean_and_spellcheck_text (c :: cs)) w3
                (io_only_clean_and_spellcheck_text _)) as (_ & K2 & K3).
    destruct (clean_and_spellcheck_text (c :: cs) w3) as [rc w4].
    cbn in K2, K3.
    assert (G4 : grows w w4)
      by (apply grows_same; [rewrite K2, H2|rewrite K3, H3]; easy).
    destruct rc as [content|e]; [|injection Hr as <- <-; now split].
    unfold write_file in Hr.
    destruct (bool_decide _ && _); [|injection Hr as <- <-; now split].
    injection Hr as <- <-. split.
    + eapply grows_trans; [exact G4|]. repeat split; cbn.
      * intros p [x Hp]. destruct (decide (p = txt_file_path pdf_path out))
          as [->|Hne]; [rewrite lookup_insert_eq|rewrite lookup_insert_ne];
          eauto.
      * intros p. destruct (decide (p = txt_file_path pdf_path out))
          as [->|Hne].
        -- intros _. right. apply txt_file_path_ends_with_txt.
        -- rewrite lookup_insert_ne by easy. now left.
    + intros _. left. unfold exists_in. cbn. now rewrite lookup_insert_eq.
  - injection Hr as <- <-. split.
    + apply grows_same; [rewrite <- H2|rewrite <- H3]; reflexivity.
    + intros _. right. left. now symmetry.
  - injection Hr as <- <-. now split.
Qed.


(** * The folder *)

Lemma process_pdf_files_grows {E : Env} d out l w :
  grows w (snd (process_pdf_files d out l w)) /\
  (fst (process_pdf_files d out l w) = Ok tt ->
   forall f, In f l ->
     settled (snd (process_pdf_files d out l w)) (path_join d f) out).
Proof.
  revert w. induction l as [|f l IH]; intros w.
  { split; [now apply grows_same|]. intros _ f []. }
  cbn [process_pdf_files]. unfold bind.
  destruct (process_pdf_file_step (path_join d f) out w) as [S1 S2].
  destruct (process_pdf_file (path_join d f) out w) as [[[]|e] w1];
    cbn [fst snd] in *; [|now split].
  destruct (IH w1) as [G S]. split; [eapply grows_trans; eauto|].
  intros Hok f' [<-|Hf]; [|now apply S].
  eapply settled_grows; [exact G|]. now apply S2.
Qed.


Lemma process_listed_grows {E : Env} d out w :
  grows w (snd (process_listed d out w)) /\
  (fst (process_listed d out w) = Ok tt ->
   forall f, In f (pdf_names d w) ->
     settled (snd (process_listed d out w)) (path_join d f) out).
Proof.
  unfold process_listed.
  pose proof (process_pdf_files_grows d out (pdf_names d w) w) as H.
  destruct (pdf_names d w) as [|f l]; [|exact H].
  split; [now apply grows_same|]. intros _ f [].
Qed.


Lemma pdf_names_In {E : Env} d w f :
  In f (pdf_names d w) <->
  ends_with (lit ".pdf") f = true /\
  exists p, (is_Some (files w !! p) \/ p ∈ dirs w) /\ child_name d p = Some f.
Proof.
  unfold pdf_names. rewrite filter_In, <- list_elem_of_In, list_elem_of_omap.
  split.
  - intros [(p & Hp & Hc) Hf]. split; [exact Hf|]. exists p.
    rewrite elem_of_elements, elem_of_union, elem_of_dom in Hp. now split.
  - intros [Hf (p & Hp & Hc)]. split; [|exact Hf]. exists p.
    rewrite elem_of_elements, elem_of_union, elem_of_dom. now split.
Qed.

(** The folder processor is the preparation of the output folder followed
    by the processing of the listed files. *)
Lemma process_pdf_folder_unfold {E : Env} pdf_folder out w :
  process_pdf_folder pdf_folder out w =
  match ensure_folder (abspath out) w with
  | (Ok _, wa) =>
      let wb := emit (Printed (lit "Scanning folder for PDF files: "
                             ++ abspath pdf_folder)) wa in
      if bool_decide (abspath pdf_folder ∈ dirs wa)
      then process_listed (abspath pdf_folder) (abspath out) wb
      else (Raise (lit "FileNotFoundError"), wb)
  | (Raise e, wa) => (Raise e, wa)
  end.
Proof.
  unfold process_pdf_folder, ensure_folder, bind, path_exists.
  destruct (exists_in w (abspath out)).
  - unfold ret, print, listdir, process_listed, pdf_names.
    cbn [files dirs emit].
    destruct (bool_decide (abspath pdf_folder ∈ dirs w)); [|reflexivity].
    now destruct (List.filter _ _).
  - destruct (makedirs (abspath out) w) as [[[]|e] wa]; [|reflexivity].
    unfold print, listdir, process_listed, pdf_names. cbn [files dirs emit].
    destruct (bool_decide (abspath pdf_folder ∈ dirs wa)); [|reflexivity].
    now destruct (List.filter _ _).
Qed.

(** What a successful preparation leaves. *)
Lemma ensure_folder_ok {E : Env} out w wa :
  ensure_folder out w = (Ok tt, wa) ->
  files wa = files w /\ dirs w ⊆ dirs wa /\
  (exists_in wa out = true \/ (out = [] /\ dirs wa = dirs w)).
Proof.
  unfold ensure_folder, bind, path_exists.
  destruct (exists_in w out) eqn:Hx.
  - intros [= <-]. split; [reflexivity|]. split; [reflexivity|now left].
  - unfold makedirs. destruct (existsb _ _); [discriminate|].
    intros [= <-]. cbn. split; [reflexivity|]. split; [set_solver|].
    destruct out as [|c out].
    + right. split; [reflexivity|]. cbn. apply (right_id_L ∅ (∪)).
    + left. apply exists_in_true. right. cbn.
      apply elem_of_union_r, elem_of_list_to_set, list_elem_of_In.
      apply (dir_prefixes_self [] (c :: out)). discriminate.
Qed.




(** * Further properties of the extractor *)

(** X1: [ocr_pdf_to_text] never raises, whatever the engines do; it
    returns [None] exactly when the rasterizer raises. *)
Theorem ocr_pdf_to_text_never_raises {E : Env} pdf_path w :
  exists extracted_text,
    fst (ocr_pdf_to_text pdf_path w) = Ok extracted_text /\
    (extracted_text = None <-> exists e, convert_from_path pdf_path = Raise e).
Proof.
  destruct (convert_from_path pdf_path) as [images|e] eqn:H.
  - destruct (ocr_pdf_to_text_returns pdf_path images w H) as (w' & -> & _).
    eexists. split; [reflexivity|]. split; [discriminate|].
    intros [e He]. discriminate.
  - rewrite (ocr_pdf_to_text_raises pdf_path e w H).
    exists None. split; [reflexivity|]. split; [|reflexivity].
    intros _. now exists e.
Qed.

Lemma ocr_calls_app {image : Type} (evs1 evs2 : list (event image)) :
  ocr_calls (evs1 ++ evs2) = ocr_calls evs1 ++ ocr_calls evs2.
Proof. apply omap_app. Qed.

Lemma ocr_pages_trace {E : Env} pdf_path page_num images full_text w :
  exists evs,
    trace (snd (ocr_pages pdf_path page_num images full_text w)) =
      trace w ++ evs /\
    ocr_calls evs = images.
Proof.
  revert page_num full_text w.
  induction images as [|image images IH]; intros page_num full_text w.
  - exists []. cbn. now rewrite app_nil_r.
  - cbn [ocr_pages]. unfold bind at 1. unfold try_except, bind, print, call, ret.
    destruct (image_to_string image) as [t|e];
      match goal with |- context [ocr_pages _ _ _ ?t ?w'] =>
        destruct (IH (S page_num) t w') as (evs & -> & Hc) end;
      cbn [trace emit]; eexists; rewrite <- !app_assoc;
      (split; [reflexivity|]); rewrite !ocr_calls_app, Hc; reflexivity.
Qed.

(** X2: every page the rasterizer returns is handed to OCR exactly once,
    in page order, whether or not OCR raised on earlier pages; when the
    rasterizer raises, OCR is not called. *)
Theorem every_page_is_read_once {E : Env} pdf_path w :
  exists evs,
    trace (snd (ocr_pdf_to_text pdf_path w)) = trace w ++ evs /\
    ocr_calls evs = match convert_from_path pdf_path with
                    | Ok images => images
                    | Raise _ => []
                    end.
Proof.
  destruct (convert_from_path pdf_path) as [images|e] eqn:H.
  - unfold ocr_pdf_to_text, try_except.
    unfold bind at 1. unfold print. unfold bind at 1. unfold call. rewrite H.
    unfold bind, ret. set (w1 := emit (Rasterize pdf_path) _).
    destruct (ocr_pages_trace pdf_path 1 images [] w1) as (evs & Ht & Hc).
    destruct (ocr_pages _ _ _ _ _) as [[t|e] w']; cbn [snd trace emit] in *;
      rewrite Ht; subst w1; cbn [trace emit]; eexists; rewrite <- !app_assoc;
      (split; [reflexivity|]); rewrite !ocr_calls_app, Hc; cbn;
      now rewrite ?app_nil_r.
  - rewrite (ocr_pdf_to_text_raises pdf_path e w H). eexists.
    split; reflexivity.
Qed.

(** * Further properties of the rewriter *)

Lemma correct_word_ok {E : Env} word w :
  exists corrected_word, fst (correct_word word w) = Ok corrected_word.
Proof.
  unfold correct_word.
  destruct (bool_decide _ || is_word_in_whitelist word); [now exists word|].
  destruct ((15 <? length word)%nat || _); [now exists word|].
  unfold try_except, bind, call, print, ret.
  destruct (spell_unknown word) as [[|]|e]; try now exists word.
  destruct (spell_correction word) as [[[|c cs]|]|e]; now eexists.
Qed.

(** X3: the word loop never raises; what it appends is the word itself,
    or the non-empty correction the spell checker gave for a word it did
    not know. *)
Theorem correct_word_never_raises {E : Env} word w :
  exists corrected_word,
    fst (correct_word word w) = Ok corrected_word /\
    (corrected_word = word \/
     (protected word = false /\ spell_unknown word = Ok true /\
      spell_correction word = Ok (Some corrected_word) /\
      corrected_word <> [])).
Proof.
  unfold correct_word, protected.
  destruct (bool_decide _ || is_word_in_whitelist word); [now exists word; auto|].
  destruct ((15 <? length word)%nat || _); [now exists word; auto|].
  unfold try_except, bind, call, print, ret.
  destruct (spell_unknown word) as [[|]|e]; try (exists word; now auto).
  destruct (spell_correction word) as [[[|c cs]|]|e];
    try (exists word; now auto).
  exists (c :: cs). split; [reflexivity|]. right. now repeat split.
Qed.

(** X4: when the spell checker raises on a word that is not protected,
    in [unknown] or in [correction], the word is kept and the error is
    printed. *)
Theorem spell_checker_failure_keeps_word {E : Env} word e w :
  protected word = false ->
  (spell_unknown word = Raise e ->
   correct_word word w =
   (Ok word,
    emits [SpellUnknown word;
           Printed (lit "Error correcting word '" ++ word ++ lit "': " ++ e)]
      w)) /\
  (spell_unknown word = Ok true -> spell_correction word = Raise e ->
   correct_word word w =
   (Ok word,
    emits [SpellUnknown word; SpellCorrection word;
           Printed (lit "Error correcting word '" ++ word ++ lit "': " ++ e)]
      w)).
Proof.
  unfold protected, correct_word. intros Hp.
  apply orb_false_iff in Hp as [-> ->].
  unfold try_except, bind, call, print, ret, emit, emits. split.
  - intros ->. cbn. now rewrite <- !app_assoc.
  - intros -> ->. cbn. now rewrite <- !app_assoc.
Qed.

Lemma spell_checker_failure_keeps_word_witness :
  @protected Faulty.env (lit "Helo") = false /\
  @spell_unknown Faulty.env (lit "Helo") = Raise (lit "KeyError") /\
  @correct_word Faulty.env (lit "Helo") Faulty.start =
  (Ok (lit "Helo"),
   @emits Faulty.env
     [SpellUnknown (lit "Helo");
      Printed (lit "Error correcting word 'Helo': KeyError")]
     Faulty.start).
Proof.
  assert (Hp : @protected Faulty.env (lit "Helo") = false) by reflexivity.
  split; [exact Hp|]. split; [reflexivity|].
  apply (proj1 (@spell_checker_failure_keeps_word Faulty.env (lit "Helo")
                  (lit "KeyError") Faulty.start Hp)).
  reflexivity.
Defined.

Lemma for_each_never_raises {E : Env} {A B} (f : A -> M B) l w :
  (forall x w, exists y, fst (f x w) = Ok y) ->
  exists ys, fst (for_each f l w) = Ok ys /\ length ys = length l.
Proof.
  intros Hf. revert w. induction l as [|x l IH]; intros w.
  - now exists [].
  - cbn [for_each]. unfold bind at 1.
    destruct (Hf x w) as [y Hy]. destruct (f x w) as [r w1]. cbn in Hy.
    subst r. unfold bind. destruct (IH w1) as (ys & Hys & Hl).
    destruct (for_each f l w1) as [r w2]. cbn in Hys. subst r.
    exists (y :: ys). cbn. now rewrite Hl.
Qed.

(** X5: [clean_and_spellcheck_text] raises exactly when the sentence
    segmenter raises on the cleaned text, with the same exception;
    otherwise it returns one paragraph per sentence, joined by blank
    lines. *)
Theorem cleaning_raises_only_with_segmenter {E : Env} text w :
  match nlp_sents (Normalizer.regex_cleanup text) with
  | Raise e => fst (clean_and_spellcheck_text text w) = Raise e
  | Ok sentences =>
      exists corrected_text,
        fst (clean_and_spellcheck_text text w) =
          Ok (str_join [nl; nl] corrected_text) /\
        length corrected_text = length sentences
  end.
Proof.
  unfold clean_and_spellcheck_text. unfold bind at 1. unfold call.
  destruct (nlp_sents (Normalizer.regex_cleanup text)) as [sentences|e];
    [|reflexivity].
  unfold bind. set (w1 := emit _ w).
  destruct (for_each_never_raises correct_sentence sentences w1)
    as (ps & Hps & Hl).
  { intros sentence w0. unfold correct_sentence, bind.
    destruct (for_each_never_raises correct_word (str_split sentence) w0)
      as (ws & Hws & _).
    { intros word w2. apply correct_word_ok. }
    destruct (for_each correct_word _ w0) as [r w3]. cbn in Hws. subst r.
    eexists. reflexivity. }
  destruct (for_each correct_sentence sentences w1) as [r w2]. cbn in Hps.
  subst r. exists ps. now split.
Qed.

(** * Further properties of the orchestrator *)













Lemma pdf_names_grows {E : Env} d w w' f :
  grows w w' -> (In f (pdf_names d w') <-> In f (pdf_names d w)).
Proof.
  intros (D & K & N). rewrite !pdf_names_In, D. split.
  - intros [Hpdf (p & Hp & Hc)]. split; [exact Hpdf|]. exists p.
    split; [|exact Hc]. destruct Hp as [Hp|Hp]; [|now right].
    destruct (N p Hp) as [Hp'|Htxt]; [now left|].
    destruct (child_name_suffix _ _ _ Hc) as [pre ->].
    destruct (pdf_name_not_in_txt_path _ _ Hpdf Htxt).
  - intros [Hpdf (p & Hp & Hc)]. split; [exact Hpdf|]. exists p.
    split; [|exact Hc]. destruct Hp as [Hp|Hp]; [left; auto|now right].
Qed.

(** X10: what [process_pdf_file] writes is never taken for a PDF: in every
    directory, the names ending in [.pdf] are the same after the call as
    before, so an output folder that is the input folder feeds nothing
    back. *)
Theorem written_files_are_not_inputs {E : Env} pdf_path out d w f :
  In f (pdf_names d (snd (process_pdf_file pdf_path out w))) <->
  In f (pdf_names d w).
Proof. apply pdf_names_grows, process_pdf_file_step. Qed.





(** X12: when the output folder exists and no entry of the input folder
    has a name ending in [.pdf], [process_pdf_folder] prints that it found
    no PDF files and returns; no engine is called and nothing is written. *)
Theorem folder_without_pdf_files {E : Env} pdf_folder out w :
  exists_in w (abspath out) = true ->
  abspath pdf_folder ∈ dirs w ->
  (forall p name, is_Some (files w !! p) \/ p ∈ dirs w ->
                  child_name (abspath pdf_folder) p = Some name ->
                  ends_with (lit ".pdf") name = false) ->
  process_pdf_folder pdf_folder out w =
  (Ok tt,
   emits [Printed (lit "Scanning folder for PDF files: " ++ abspath pdf_folder);
          Printed (lit "No PDF files found.")] w).
Proof.
  intros Hx Hd Hn. rewrite process_pdf_folder_unfold.
  unfold ensure_folder, bind, path_exists. rewrite Hx. cbn zeta iota beta.
  unfold ret. rewrite (bool_decide_eq_true_2 _ Hd). unfold process_listed.
  set (wb := emit _ w).
  assert (Hl : pdf_names (abspath pdf_folder) wb = []).
  { destruct (pdf_names (abspath pdf_folder) wb) as [|f l] eqn:Hl;
      [reflexivity|].
    assert (Hf : In f (pdf_names (abspath pdf_folder) wb))
      by (rewrite Hl; now left).
    apply pdf_names_In in Hf as [Hpdf (p & Hp & Hc)].
    rewrite (Hn p f Hp Hc) in Hpdf. discriminate. }
  rewrite Hl. unfold print, emit, emits, wb. cbn. now rewrite <- app_assoc.
Qed.

Lemma folder_without_pdf_files_witness :
  @process_pdf_folder Demo.env (lit "/in") (lit "/out") Faulty.text_only =
  (Ok tt,
   @emits Demo.env [Printed (lit "Scanning folder for PDF files: /in");
                    Printed (lit "No PDF files found.")] Faulty.text_only).
Proof.
  apply (@folder_without_pdf_files Demo.env (lit "/in") (lit "/out")
           Faulty.text_only); [reflexivity|vm_compute; reflexivity|].
  intros p name [[c Hp]|Hp] Hc.
  - change (({[ lit "/in/notes.txt" := lit "hello" ]} : gmap str str) !! p
            = Some c) in Hp.
    apply lookup_singleton_Some in Hp as [<- _].
    vm_compute in Hc. injection Hc as <-. reflexivity.
  - change (p ∈ (list_to_set [lit "/in"; lit "/out"] : gset str)) in Hp.
    apply elem_of_list_to_set, list_elem_of_In in Hp.
    destruct Hp as [<-|[<-|[]]]; vm_compute in Hc; discriminate.
Defined.



(** X14: when [process_pdf_folder] returns, the output folder exists. *)
Theorem output_folder_exists_after_run {E : Env} pdf_folder out w :
  fst (process_pdf_folder pdf_folder out w) = Ok tt ->
  abspath out <> [] ->
  exists_in (snd (process_pdf_folder pdf_folder out w)) (abspath out) = true.
Proof.
  rewrite process_pdf_folder_unfold.
  destruct (ensure_folder (abspath out) w) as [[[]|e] wa] eqn:He;
    [|discriminate].
  destruct (ensure_folder_ok _ _ _ He) as (_ & _ & Xa).
  cbn zeta. set (wb := emit _ wa).
  destruct (bool_decide _); [|discriminate].
  intros _ Hne. destruct Xa as [Xa|[Xa _]]; [|contradiction].
  eapply exists_in_grows; [apply process_listed_grows|exact Xa].
Qed.

Lemma output_folder_exists_after_run_witness :
  @exists_in Demo.env Demo.start (lit "/out") = false /\
  @exists_in Demo.env
    (snd (@process_pdf_folder Demo.env (lit "/in") (lit "/out") Demo.start))
    (lit "/out") = true.
Proof.
  split; [reflexivity|].
  apply (@output_folder_exists_after_run Demo.env (lit "/in") (lit "/out")
           Demo.start); [vm_compute; reflexivity|discriminate].
Defined.

(** * Further properties of the clean-up *)

Lemma no_pair_cons before after c s :
  no_pair before after (c :: s) =
  negb (before c && head_in after s) && no_pair before after s.
Proof. destruct s; simpl; [now rewrite andb_false_r|reflexivity]. Qed.

Lemma re_sub_between_head q before after ins s :
  s <> [] -> head_in q (re_sub_between before after ins s) = head_in q s.
Proof. now destruct s. Qed.

Lemma head_in_re_sub_between q before after ins s :
  head_in q (re_sub_between before after ins s) = head_in q s.
Proof. now destruct s. Qed.

(** After the insertion no [before] character is followed by an [after]
    character. *)
Lemma re_sub_between_splits before after i1 i2 s :
  after i1 = false -> before i1 = false -> before i2 = false ->
  no_pair before after (re_sub_between before after [i1; i2] s) = true.
Proof.
  intros Ha Hb1 Hb. induction s as [|c s IH]; [reflexivity|].
  cbn [re_sub_between].
  replace (match s with d :: _ => after d | [] => false end)
    with (head_in after s) by now destruct s.
  destruct (before c && head_in after s) eqn:Hc; cbn [app].
  - rewrite !no_pair_cons, IH. cbn [head_in].
    now rewrite Ha, Hb1, Hb, !andb_false_r.
  - now rewrite no_pair_cons, head_in_re_sub_between, Hc, IH.
Qed.

(** The insertion of characters that are on neither side of [before']
    and [after'] creates no pair of these. *)
Lemma re_sub_between_keeps_no_pair before' after' before after i1 i2 s :
  after' i1 = false -> before' i1 = false -> before' i2 = false ->
  no_pair before' after' s = true ->
  no_pair before' after' (re_sub_between before after [i1; i2] s) = true.
Proof.
  intros Ha Hb1 Hb. induction s as [|c s IH]; [reflexivity|].
  rewrite no_pair_cons. intros H. apply andb_prop in H as [Hn Hs].
  cbn [re_sub_between].
  destruct (before c && _); cbn [app].
  - rewrite !no_pair_cons, (IH Hs). cbn [head_in].
    now rewrite Ha, Hb1, Hb, !andb_false_r.
  - now rewrite no_pair_cons, head_in_re_sub_between, Hn, (IH Hs).
Qed.

Lemma re_sub_between_lacks q before after ins s :
  lacks q ins = true -> lacks q s = true ->
  lacks q (re_sub_between before after ins s) = true.
Proof.
  unfold lacks. intros Hi. induction s as [|c s IH]; [reflexivity|].
  cbn [forallb re_sub_between]. intros H. apply andb_prop in H as [-> Hs].
  destruct (before c && _); [rewrite forallb_app, Hi|]; now rewrite (IH Hs).
Qed.

Lemma head_in_period_before_each_newline q s :
  q period = false ->
  head_in q (NormalizerSpec.period_before_each_newline s) = true ->
  head_in q s = true.
Proof.
  intros Hq. destruct s as [|c s]; [easy|]. cbn.
  destruct (is_nl c); cbn; [now rewrite Hq|easy].
Qed.

Lemma period_before_each_newline_no_adj q s :
  q period = false -> no_adj q s = true ->
  no_adj q (NormalizerSpec.period_before_each_newline s) = true.
Proof.
  intros Hq. induction s as [|c s IH]; [reflexivity|].
  rewrite no_adj_cons. intros H. apply andb_prop in H as [Hn Hs].
  specialize (IH Hs).
  assert (Hc : negb (q c && head_in q
                (NormalizerSpec.period_before_each_newline s)) = true).
  { destruct (q c); [|reflexivity]. cbn [andb] in *.
    destruct (head_in q (NormalizerSpec.period_before_each_newline s)) eqn:Hh;
      [|reflexivity].
    now rewrite (head_in_period_before_each_newline q s Hq Hh) in Hn. }
  cbn [NormalizerSpec.period_before_each_newline flat_map].
  fold (NormalizerSpec.period_before_each_newline s).
  destruct (is_nl c) eqn:Hnl; cbn [app].
  - apply N.eqb_eq in Hnl. subst c.
    rewrite !no_adj_cons, IH, Hc. cbn [head_in]. now rewrite Hq.
  - now rewrite no_adj_cons, IH, Hc.
Qed.

Lemma period_before_each_newline_no_pair before after s :
  before period = false -> after period = false ->
  no_pair before after s = true ->
  no_pair before after (NormalizerSpec.period_before_each_newline s) = true.
Proof.
  intros Hb Ha. induction s as [|c s IH]; [reflexivity|].
  rewrite no_pair_cons. intros H. apply andb_prop in H as [Hn Hs].
  specialize (IH Hs).
  assert (Hc : negb (before c && head_in after
                (NormalizerSpec.period_before_each_newline s)) = true).
  { destruct (before c); [|reflexivity]. cbn [andb] in *.
    destruct (head_in after (NormalizerSpec.period_before_each_newline s))
      eqn:Hh; [|reflexivity].
    now rewrite (head_in_period_before_each_newline after s Ha Hh) in Hn. }
  cbn [NormalizerSpec.period_before_each_newline flat_map].
  fold (NormalizerSpec.period_before_each_newline s).
  destruct (is_nl c) eqn:Hnl; cbn [app].
  - apply N.eqb_eq in Hnl. subst c.
    rewrite !no_pair_cons, IH, Hc. cbn [head_in]. now rewrite Hb.
  - now rewrite no_pair_cons, IH, Hc.
Qed.

Lemma period_before_each_newline_follow b s :
  newlines_follow b (NormalizerSpec.period_before_each_newline s) = true.
Proof.
  revert b. induction s as [|c s IH]; intros b; [reflexivity|].
  cbn [NormalizerSpec.period_before_each_newline flat_map].
  fold (NormalizerSpec.period_before_each_newline s).
  destruct (is_nl c) eqn:Hc; cbn [app newlines_follow].
  - change (is_nl period) with false. change (is_nl nl) with true.
    change (is_period period) with true. cbn [andb]. apply IH.
  - rewrite Hc, IH. reflexivity.
Qed.

(** The clean-up ends with a period put before each newline. *)
Lemma regex_cleanup_last_step text :
  Normalizer.regex_cleanup text =
  NormalizerSpec.period_before_each_newline (before_step8 text).
Proof. apply period_before_newline_spec, before_step8_no_adj. Qed.

(** X15: in the text that [clean_and_spellcheck_text] hands to the
    sentence segmenter there is no asterisk, no middle dot, and no two
    whitespace characters in a row. *)
Theorem regex_cleanup_leaves_no_clutter text :
  lacks is_asterisk (Normalizer.regex_cleanup text) = true /\
  lacks is_middle_dot (Normalizer.regex_cleanup text) = true /\
  no_adj is_space (Normalizer.regex_cleanup text) = true.
Proof.
  destruct (collapse_rules_post text) as (Pa & Pm & _).
  split; [|split].
  - apply scan_sub_forallb; [reflexivity|].
    do 2 (apply re_sub_between_lacks; [reflexivity|]). exact Pa.
  - apply scan_sub_forallb; [reflexivity|].
    do 2 (apply re_sub_between_lacks; [reflexivity|]). exact Pm.
  - rewrite regex_cleanup_last_step.
    apply period_before_each_newline_no_adj; [reflexivity|].
    apply before_step8_no_adj.
Qed.

(** X16: in that text every newline comes right after a period, and no
    lowercase letter and no digit is immediately followed by an uppercase
    letter. *)
Theorem regex_cleanup_marks_sentence_ends text :
  newlines_follow false (Normalizer.regex_cleanup text) = true /\
  no_pair is_lower is_upper (Normalizer.regex_cleanup text) = true /\
  no_pair is_ascii_digit is_upper (Normalizer.regex_cleanup text) = true.
Proof.
  rewrite regex_cleanup_last_step. split; [|split].
  - apply period_before_each_newline_follow.
  - apply period_before_each_newline_no_pair; [reflexivity..|].
    apply re_sub_between_keeps_no_pair; [reflexivity..|].
    now apply re_sub_between_splits.
  - apply period_before_each_newline_no_pair; [reflexivity..|].
    now apply re_sub_between_splits.
Qed.

Lemma run_len_le p s : (run_len p s <= length s)%nat.
Proof. induction s as [|c s IH]; cbn; [lia|]. destruct (p c); lia. Qed.

(** A substitution whose replacement is no longer than any match does not
    lengthen the text. *)
Lemma scan_sub_length m repl s n :
  (forall t k, m t = Some (S k) -> (length repl <= S k <= length t)%nat) ->
  (length (scan_sub m repl n s) <= length s - n)%nat.
Proof.
  intros Hm. revert n. induction s as [|c s IH]; intros n; [cbn; lia|].
  destruct n as [|n]; [|rewrite scan_sub_skip; specialize (IH n); cbn; lia].
  cbn [scan_sub]. destruct (m (c :: s)) as [[|k]|] eqn:E.
  2: { destruct (Hm _ _ E) as [H1 H2]. rewrite length_app.
       specialize (IH k). cbn [length] in *. lia. }
  all: specialize (IH O); cbn [length]; lia.
Qed.

Lemma re_sub_run_length p k repl s :
  (length repl <= 1)%nat -> (length (re_sub_run p k repl s) <= length s)%nat.
Proof.
  intros Hr. unfold re_sub_run.
  pose proof (scan_sub_length (match_run p k) repl s 0) as H.
  rewrite Nat.sub_0_r in H. apply H. intros t j. unfold match_run.
  destruct (k <=? run_len p t)%nat; [|discriminate]. intros [= E].
  pose proof (run_len_le p t). lia.
Qed.

(** X17: the five collapse rules never lengthen a text. *)
Theorem collapse_rules_never_lengthen text :
  (length (Normalizer.collapse_rules text) <= length text)%nat.
Proof.
  unfold Normalizer.collapse_rules, Normalizer.collapse_whitespace,
    Normalizer.collapse_newlines, Normalizer.remove_middle_dots,
    Normalizer.remove_asterisks, Normalizer.collapse_periods.
  repeat (etransitivity; [apply re_sub_run_length; cbn; lia|]).
  reflexivity.
Qed.

(** * Words and sentences *)

Lemma lacks_app p a b : lacks p (a ++ b) = lacks p a && lacks p b.
Proof. apply forallb_app. Qed.

Lemma split_from_words cur s word :
  lacks is_space cur = true -> In word (split_from cur s) ->
  word <> [] /\ lacks is_space word = true.
Proof.
  revert cur. induction s as [|c s IH]; intros cur Hcur.
  - cbn. destruct cur; [easy|]. intros [<-|[]]. now split.
  - cbn [split_from]. destruct (is_space c) eqn:Hc.
    + destruct cur as [|a cur]; [now apply IH|].
      intros [<-|H]; [now split|]. now apply (IH []).
    + apply IH. rewrite lacks_app, Hcur. unfold lacks. cbn [forallb andb].
      now rewrite Hc.
Qed.

(** X18: the words of [sentence.split()] are never empty and contain no
    whitespace, so an empty entry of the whitelist is never matched by the
    membership test. *)
Theorem split_words_are_tokens sentence word :
  In word (str_split sentence) ->
  word <> [] /\ lacks is_space word = true.
Proof.
  intros H. unfold str_split in H.
  apply (split_from_words [] sentence word); [reflexivity|exact H].
Qed.

Lemma split_words_are_tokens_witness :
  In (lit "attcks") (str_split (lit "  goblin   attcks ")) /\
  lit "attcks" <> [] /\ lacks is_space (lit "attcks") = true.
Proof.
  assert (H : In (lit "attcks") (str_split (lit "  goblin   attcks ")))
    by (vm_compute; tauto).
  split; [exact H|]. exact (split_words_are_tokens _ _ H).
Defined.

Lemma split_from_word cur word rest :
  lacks is_space word = true ->
  split_from cur (word ++ rest) = split_from (cur ++ word) rest.
Proof.
  revert cur. induction word as [|c word IH]; intros cur H.
  - now rewrite app_nil_r.
  - unfold lacks in H, IH. cbn [forallb] in H.
    apply andb_prop in H as [Hc Hw]. apply negb_true_iff in Hc.
    cbn [app split_from]. rewrite Hc, (IH _ Hw), <- app_assoc. reflexivity.
Qed.

Lemma split_join words :
  (forall word, In word words -> word <> [] /\ lacks is_space word = true) ->
  str_split (str_join [space] words) = words.
Proof.
  unfold str_split. induction words as [|x words IH]; intros H; [reflexivity|].
  destruct (H x (or_introl eq_refl)) as [Hx Hs].
  assert (IH' : split_from [] (str_join [space] words) = words)
    by (apply IH; intros w Hw; apply H; now right).
  destruct words as [|y words].
  - cbn [str_join]. rewrite <- (app_nil_r x) at 1.
    rewrite (split_from_word [] x [] Hs). cbn. now destruct x.
  - change (str_join [space] (x :: y :: words))
      with (x ++ space :: str_join [space] (y :: words)).
    rewrite (split_from_word [] x _ Hs). cbn [app split_from].
    change (is_space space) with true. cbv iota.
    destruct x as [|a x]; [easy|]. now rewrite IH'.
Qed.

Lemma correct_word_protected {E : Env} word w :
  protected word = true -> correct_word word w = (Ok word, w).
Proof.
  unfold protected, correct_word. intros H.
  destruct (bool_decide _ || is_word_in_whitelist word); [reflexivity|].
  cbn [orb] in H. now rewrite H.
Qed.

Lemma for_each_protected {E : Env} words w :
  (forall word, In word words -> protected word = true) ->
  for_each correct_word words w = (Ok words, w).
Proof.
  induction words as [|x words IH]; intros H; [reflexivity|].
  cbn [for_each]. unfold bind at 1.
  rewrite correct_word_protected by (apply H; now left).
  unfold bind. rewrite IH by (intros y Hy; apply H; now right). reflexivity.
Qed.

(** X19: a sentence whose words are all protected (whitelisted, close to
    the whitelist, longer than 15 characters or with a digit) is rebuilt
    from its own words joined by single spaces, without any call of the
    spell checker; splitting the rebuilt sentence gives the same words
    again. *)
Theorem protected_sentence_is_only_respaced {E : Env} sentence w :
  (forall word, In word (str_split sentence) -> protected word = true) ->
  correct_sentence sentence w =
    (Ok (str_join [space] (str_split sentence)), w) /\
  str_split (str_join [space] (str_split sentence)) = str_split sentence.
Proof.
  intros H. split.
  - unfold correct_sentence, bind. now rewrite for_each_protected.
  - apply split_join. intros word Hw. now apply split_from_words in Hw.
Qed.

Lemma protected_sentence_is_only_respaced_witness :
  @correct_sentence Demo.env (lit "  goblin   lvl3 ") Demo.start =
  (Ok (lit "goblin lvl3"), Demo.start).
Proof.
  apply (@protected_sentence_is_only_respaced Demo.env
           (lit "  goblin   lvl3 ") Demo.start).
  intros word Hw. vm_compute in Hw.
  destruct Hw as [<-|[<-|[]]]; vm_compute; reflexivity.
Defined.

(** * The whitelist file *)

Lemma head_in_lstrip s : head_in is_space (lstrip s) = false.
Proof.
  unfold lstrip. induction s as [|c s IH]; [reflexivity|].
  cbn [run_len]. destruct (is_space c) eqn:Hc; cbn [skipn head_in];
    [exact IH|exact Hc].
Qed.

Lemma head_in_app p a b : a <> [] -> head_in p (a ++ b) = head_in p a.
Proof. now destruct a. Qed.

Lemma head_in_strip s :
  head_in is_space (strip s) = false /\
  head_in is_space (rev (strip s)) = false.
Proof.
  unfold strip. rewrite rev_involutive. split; [|apply head_in_lstrip].
  pose proof (head_in_lstrip s) as H. remember (lstrip s) as t eqn:Et.
  clear Et. unfold lstrip at 1.
  pose proof (firstn_skipn (run_len is_space (rev t)) (rev t)) as Hsplit.
  remember (skipn (run_len is_space (rev t)) (rev t)) as u eqn:Eu. clear Eu.
  apply (f_equal (@rev N)) in Hsplit.
  rewrite rev_involutive, rev_app_distr in Hsplit.
  destruct (rev u) as [|a ru] eqn:Er; [reflexivity|].
  rewrite <- Hsplit in H. rewrite head_in_app in H by discriminate. exact H.
Qed.

(** X20: every entry of the loaded whitelist is stripped: it neither
    starts nor ends with a whitespace character. *)
Theorem whitelist_entries_are_stripped content entry :
  entry ∈ load_whitelist content ->
  head_in is_space entry = false /\ head_in is_space (rev entry) = false.
Proof.
  unfold load_whitelist. rewrite elem_of_list_to_set, list_elem_of_In, in_map_iff.
  intros (line & <- & _). apply head_in_strip.
Qed.

Lemma whitelist_entries_are_stripped_witness :
  lit "goblin" ∈ load_whitelist (lit "  goblin  ") /\
  head_in is_space (lit "goblin") = false.
Proof.
  assert (H : lit "goblin" ∈ load_whitelist (lit "  goblin  "))
    by (vm_compute; reflexivity).
  split; [exact H|]. apply (whitelist_entries_are_stripped _ _ H).
Defined.

Lemma file_lines_from_line cur line rest :
  lacks is_nl line = true ->
  file_lines_from cur (line ++ nl :: rest) =
  (cur ++ line ++ [nl]) :: file_lines_from [] rest.
Proof.
  revert cur. induction line as [|c line IH]; intros cur H.
  - reflexivity.
  - unfold lacks in H, IH. cbn [forallb] in H.
    apply andb_prop in H as [Hc Hl]. apply negb_true_iff in Hc.
    cbn [app file_lines_from]. rewrite Hc, (IH _ Hl), <- app_assoc.
    reflexivity.
Qed.

Lemma file_lines_from_later cur pre rest line :
  In line (file_lines_from [] rest) ->
  In line (file_lines_from cur (pre ++ nl :: rest)).
Proof.
  revert cur. induction pre as [|c pre IH]; intros cur H.
  - cbn. now right.
  - cbn [app file_lines_from]. destruct (is_nl c); [right|]; now apply IH.
Qed.

Lemma lstrip_all_space s : forallb is_space s = true -> lstrip s = [].
Proof.
  unfold lstrip. induction s as [|c s IH]; [reflexivity|].
  cbn [forallb run_len]. intros H. apply andb_prop in H as [-> Hs].
  cbn [skipn]. now apply IH.
Qed.

(** X21: a line of the whitelist file that is empty or has only
    whitespace puts the empty string into the whitelist; the loader does
    not filter it. *)
Theorem blank_line_gives_empty_entry pre blank post :
  forallb is_space blank = true -> lacks is_nl blank = true ->
  [] ∈ load_whitelist (pre ++ nl :: blank ++ nl :: post).
Proof.
  intros Hs Hn. unfold load_whitelist, file_lines.
  rewrite elem_of_list_to_set, list_elem_of_In, in_map_iff.
  exists (blank ++ [nl]). split.
  - unfold strip. rewrite (lstrip_all_space (blank ++ [nl])); [reflexivity|].
    rewrite forallb_app, Hs. reflexivity.
  - apply file_lines_from_later. rewrite file_lines_from_line by exact Hn.
    now left.
Qed.

Lemma blank_line_gives_empty_entry_witness :
  [] ∈ load_whitelist (lit "goblin" ++ nl :: lit "  " ++ nl :: lit "orc").
Proof.
  apply (blank_line_gives_empty_entry (lit "goblin") (lit "  ") (lit "orc"));
    reflexivity.
Defined.

(** * The name of the text file *)

(** X22: for a PDF whose name, before the extension, has no period, the
    text file is that name with [.txt] in the output folder. *)
Theorem plain_name_gets_txt_extension {E : Env} d name out :
  lacks is_period name = true -> forallb not_slash name = true ->
  abspath (d ++ slash :: name ++ lit ".pdf") = d ++ slash :: name ++ lit ".pdf" ->
  txt_file_path (d ++ slash :: name ++ lit ".pdf") out =
  path_join (abspath out) (name ++ lit ".txt").
Proof. apply txt_file_path_of_plain_name. Qed.

Lemma plain_name_gets_txt_extension_witness :
  @txt_file_path Demo.env (lit "/in/book1.pdf") (lit "/out") =
  lit "/out/book1.txt".
Proof.
  apply (@plain_name_gets_txt_extension Demo.env (lit "/in") (lit "book1")
           (lit "/out")); reflexivity.
Defined.
